(** * Furnace commander: the synthetic data generator of [backend/data.py]

    A shallow embedding of the two update functions [calculate_temperature]
    and [calculate_excess_o2] and of the module-level generation loop.

    Modelling choices.
    - Python floats are idealised as real numbers ([R]); [np.exp] is the real
      exponential.  Rounding, overflow and NaN are outside this model.
    - The process-wide random generator of numpy is an explicit state: the
      stream of the values that the successive calls of [np.random.rand()]
      will return.  Every function that draws threads that state.
    - [np.random.uniform(lo, hi)] is [lo + (hi - lo) * rand()], which is how
      numpy computes it from one draw of the same generator.
    - The module-level constants [num_sequences], [sequence_length] and
      [ranges] are gathered in a record [config]; [default_config] holds the
      values written in the source. *)

From Stdlib Require Import Reals Lra Psatz Lia ZArith List FunctionalExtensionality.
Import ListNotations.

Open Scope R_scope.

(** ** Python and numpy primitives *)

(** Python's [max(a, b)]: the first argument is kept unless the second is
    strictly greater. *)
Definition py_max (a b : R) : R :=
  if Rlt_dec a b then b else a.

(** [np.clip(x, lo, hi)] is [minimum(maximum(x, lo), hi)]. *)
Definition np_maximum (a b : R) : R := if Rle_dec a b then b else a.
Definition np_minimum (a b : R) : R := if Rle_dec a b then a else b.
Definition np_clip (x lo hi : R) : R := np_minimum (np_maximum x lo) hi.

(** ** The random source and its state monad *)

(** The state of the generator: draw number [k] from now on. *)
Definition source : Type := nat -> R.

Definition Rand (A : Type) : Type := source -> A * source.

Definition ret {A : Type} (a : A) : Rand A := fun s => (a, s).

Definition bind {A B : Type} (m : Rand A) (f : A -> Rand B) : Rand B :=
  fun s => let (a, s') := m s in f a s'.

Notation "x <- m ;; k" := (bind m (fun x => k))
  (at level 61, m at next level, right associativity).

(** The generator with its first [k] draws consumed. *)
Definition advance (k : nat) (s : source) : source := fun n => s (k + n)%nat.

(** [np.random.rand()]: the next draw. *)
Definition np_random_rand : Rand R := fun s => (s 0%nat, advance 1 s).

(** [np.random.uniform(lo, hi)]. *)
Definition np_random_uniform (lo hi : R) : Rand R :=
  u <- np_random_rand ;; ret (lo + (hi - lo) * u).

(** A source is well formed when every draw lies in [[0, 1)]. *)
Definition valid_source (s : source) : Prop := forall n, 0 <= s n < 1.

(** ** [calculate_temperature] *)

(** The body of [calculate_temperature] as a function of the value [u] that
    its one call of [np.random.rand()] returns. *)
Definition temperature_of_draw
    (fuel_flow air_flow current_temp inflow_temp inflow_rate noise_level u : R) : R :=
  let fuel_s := fuel_flow / 3600 in
  let inflow_s := inflow_rate / 3600 in
  let AFR_opt := 147 / 10 in
  let max_fuel_energy := 39000 in
  let furnace_mass := 5000 in
  let specific_heat := 5 / 10 in
  let heat_loss_coeff := 5 / 10000 in
  let inlet_coeff := 2 / 10000 in
  let ambient_temp := 25 in
  let time_step := 1 in
  let AFR := air_flow / py_max fuel_flow (1 / 1000) in
  let efficiency := exp (- (AFR - AFR_opt) ^ 2 / (2 * 2 ^ 2)) in
  let Q_comb := fuel_s * max_fuel_energy * efficiency * time_step in
  let Q_loss := heat_loss_coeff * (current_temp - ambient_temp) * time_step in
  let Q_inflow := inlet_coeff * inflow_s * (current_temp - inflow_temp) * time_step in
  let net_energy := Q_comb - Q_loss - Q_inflow in
  let temp_change := net_energy / (furnace_mass * specific_heat) in
  let noise := (u - 5 / 10) * 2 * noise_level in
  let new_temp := current_temp + temp_change + noise in
  py_max ambient_temp new_temp.

Definition calculate_temperature
    (fuel_flow air_flow current_temp inflow_temp inflow_rate noise_level : R) : Rand R :=
  u <- np_random_rand ;;
  ret (temperature_of_draw fuel_flow air_flow current_temp inflow_temp
         inflow_rate noise_level u).

(** ** [calculate_excess_o2] *)

(** The body of [calculate_excess_o2] as a function of its draw [u]; the
    [0] of both [max(0, ...)] is the integer zero. *)
Definition excess_o2_of_draw
    (air_fuel_ratio fuel_flow current_temp noise_level u : R) : R :=
  let fuel_s := fuel_flow / 3600 in
  let HHV := 39000 in
  let U := 5 / 10000 in
  let A := 10 in
  let T_flame := 1800 in
  let AFR_opt := 147 / 10 in
  let sigma := 2 in
  let eta := exp (- (air_fuel_ratio - AFR_opt) ^ 2 / (2 * sigma ^ 2)) in
  let Q_comb := fuel_s * HHV * eta in
  let Q_trans := U * A * (T_flame - current_temp) in
  let frac_lost := py_max 0 (1 - Q_trans / py_max Q_comb (1 / 1000000)) in
  let excess_o2 := frac_lost * 21 in
  let noise := (u - 5 / 10) * 2 * noise_level in
  py_max 0 (excess_o2 + noise).

Definition calculate_excess_o2
    (air_fuel_ratio fuel_flow current_temp noise_level : R) : Rand R :=
  u <- np_random_rand ;;
  ret (excess_o2_of_draw air_fuel_ratio fuel_flow current_temp noise_level u).

(** ** The module-level configuration *)

(** The dictionary [ranges]: one [(low, high)] pair per sampled quantity. *)
Module Ranges.
Record t : Type := mk {
  fuel_flow : R * R;
  air_fuel_ratio : R * R;
  current_temp : R * R;
  inflow_temp : R * R;
  inflow_rate : R * R
}.
End Ranges.

Record config : Type := {
  num_sequences : Z;
  sequence_length : Z;
  ranges : Ranges.t
}.

(** The ranges written in the source. *)
Definition source_ranges : Ranges.t :=
  {| Ranges.fuel_flow := (1, 20);
     Ranges.air_fuel_ratio := (6 / 10, 25);
     Ranges.current_temp := (25, 500);
     Ranges.inflow_temp := (100, 200);
     Ranges.inflow_rate := (50, 200) |}.

(** The source's ranges with a chosen number and length of sequences. *)
Definition sized_config (N L : Z) : config :=
  {| num_sequences := N; sequence_length := L; ranges := source_ranges |}.

Definition default_config : config := sized_config 10000 30.

(** ** Records *)

(** One dictionary appended to [records]: the nine columns of a row. *)
Module Row.
Record t : Type := mk {
  sequence : Z;
  timestep : Z;
  fuel_flow : R;
  air_fuel_ratio : R;
  current_temp : R;
  inflow_temp : R;
  inflow_rate : R;
  next_temp : R;
  next_excess_o2 : R
}.
End Row.

(** Python's [range(n)] for an integer [n]: empty when [n <= 0]. *)
Definition range (n : Z) : list Z := map Z.of_nat (seq 0 (Z.to_nat n)).

(** ** The generation loop *)

(** The body of [for t in range(sequence_length)], iterated over the
    remaining timesteps [ts].  [records] is the shared list the loop appends
    to; the three state variables are rebound at the end of each iteration. *)
Fixpoint simulate_steps (cfg : config) (seq : Z) (fuel_flow afr air_flow : R)
    (ts : list Z) (current_temp inflow_temp inflow_rate : R)
    (records : list Row.t) : Rand (list Row.t) :=
  match ts with
  | [] => ret records
  | t :: ts' =>
      next_temp <- calculate_temperature fuel_flow air_flow current_temp
                     inflow_temp inflow_rate 1 ;;
      next_o2 <- calculate_excess_o2 afr fuel_flow current_temp (2 / 10) ;;
      let records := records ++
        [ {| Row.sequence := seq;
             Row.timestep := t;
             Row.fuel_flow := fuel_flow;
             Row.air_fuel_ratio := afr;
             Row.current_temp := current_temp;
             Row.inflow_temp := inflow_temp;
             Row.inflow_rate := inflow_rate;
             Row.next_temp := next_temp;
             Row.next_excess_o2 := next_o2 |} ] in
      u_temp <- np_random_rand ;;
      let inflow_temp' :=
        np_clip (inflow_temp + (u_temp - 5 / 10) * 10)
          (fst (Ranges.inflow_temp (ranges cfg)))
          (snd (Ranges.inflow_temp (ranges cfg))) in
      u_rate <- np_random_rand ;;
      let inflow_rate' :=
        np_clip (inflow_rate + (u_rate - 5 / 10) * 20)
          (fst (Ranges.inflow_rate (ranges cfg)))
          (snd (Ranges.inflow_rate (ranges cfg))) in
      simulate_steps cfg seq fuel_flow afr air_flow ts'
        next_temp inflow_temp' inflow_rate' records
  end.

(** [np.random.uniform] applied to the unpacked pair [ranges[key]]. *)
Definition sample (rg : R * R) : Rand R := np_random_uniform (fst rg) (snd rg).

(** The body of [for seq in range(num_sequences)], iterated over the
    remaining sequence identifiers. *)
Fixpoint generate_sequences (cfg : config) (seqs : list Z)
    (records : list Row.t) : Rand (list Row.t) :=
  match seqs with
  | [] => ret records
  | seq :: seqs' =>
      fuel_flow <- sample (Ranges.fuel_flow (ranges cfg)) ;;
      afr <- sample (Ranges.air_fuel_ratio (ranges cfg)) ;;
      current_temp <- sample (Ranges.current_temp (ranges cfg)) ;;
      inflow_temp <- sample (Ranges.inflow_temp (ranges cfg)) ;;
      inflow_rate <- sample (Ranges.inflow_rate (ranges cfg)) ;;
      let air_flow := fuel_flow * afr in
      records' <- simulate_steps cfg seq fuel_flow afr air_flow
                    (range (sequence_length cfg))
                    current_temp inflow_temp inflow_rate records ;;
      generate_sequences cfg seqs' records'
  end.

(** The whole module body from [records = []] to the end of the loops: the
    list handed to [pd.DataFrame]. *)
Definition generate (cfg : config) : Rand (list Row.t) :=
  generate_sequences cfg (range (num_sequences cfg)) [].

(** The table of a run from the generator state [s]. *)
Definition table (cfg : config) (s : source) : list Row.t := fst (generate cfg s).

(** ** A closed description of the emitted rows

    The rows a run appends, written without the accumulator and without the
    monad; [simulate_steps_rows] and [generate_sequences_rows] below show
    that the loops emit exactly these. *)

(** Number of draws one timestep consumes, and one sequence with it. *)
Definition draws_per_step : nat := 4.
Definition draws_per_sequence (cfg : config) : nat :=
  5 + draws_per_step * Z.to_nat (sequence_length cfg).

Definition walk_temp (cfg : config) (inflow_temp u : R) : R :=
  np_clip (inflow_temp + (u - 5 / 10) * 10)
    (fst (Ranges.inflow_temp (ranges cfg)))
    (snd (Ranges.inflow_temp (ranges cfg))).

Definition walk_rate (cfg : config) (inflow_rate u : R) : R :=
  np_clip (inflow_rate + (u - 5 / 10) * 20)
    (fst (Ranges.inflow_rate (ranges cfg)))
    (snd (Ranges.inflow_rate (ranges cfg))).

Definition step_row (seq t : Z) (fuel_flow afr air_flow : R)
    (current_temp inflow_temp inflow_rate : R) (s : source) : Row.t :=
  {| Row.sequence := seq;
     Row.timestep := t;
     Row.fuel_flow := fuel_flow;
     Row.air_fuel_ratio := afr;
     Row.current_temp := current_temp;
     Row.inflow_temp := inflow_temp;
     Row.inflow_rate := inflow_rate;
     Row.next_temp :=
       temperature_of_draw fuel_flow air_flow current_temp inflow_temp
         inflow_rate 1 (s 0%nat);
     Row.next_excess_o2 :=
       excess_o2_of_draw afr fuel_flow current_temp (2 / 10) (s 1%nat) |}.

Fixpoint steps_rows (cfg : config) (seq : Z) (fuel_flow afr air_flow : R)
    (ts : list Z) (current_temp inflow_temp inflow_rate : R) (s : source)
    : list Row.t :=
  match ts with
  | [] => []
  | t :: ts' =>
      let r := step_row seq t fuel_flow afr air_flow
                 current_temp inflow_temp inflow_rate s in
      r :: steps_rows cfg seq fuel_flow afr air_flow ts'
             (Row.next_temp r)
             (walk_temp cfg inflow_temp (s 2%nat))
             (walk_rate cfg inflow_rate (s 3%nat))
             (advance draws_per_step s)
  end.

Definition uniform_of (rg : R * R) (u : R) : R := fst rg + (snd rg - fst rg) * u.

(** The rows of one sequence whose sampling starts at generator state [s]. *)
Definition sequence_rows (cfg : config) (seq : Z) (s : source) : list Row.t :=
  let fuel_flow := uniform_of (Ranges.fuel_flow (ranges cfg)) (s 0%nat) in
  let afr := uniform_of (Ranges.air_fuel_ratio (ranges cfg)) (s 1%nat) in
  steps_rows cfg seq fuel_flow afr (fuel_flow * afr)
    (range (sequence_length cfg))
    (uniform_of (Ranges.current_temp (ranges cfg)) (s 2%nat))
    (uniform_of (Ranges.inflow_temp (ranges cfg)) (s 3%nat))
    (uniform_of (Ranges.inflow_rate (ranges cfg)) (s 4%nat))
    (advance 5 s).

Fixpoint table_rows (cfg : config) (seqs : list Z) (s : source) : list Row.t :=
  match seqs with
  | [] => []
  | seq :: seqs' =>
      sequence_rows cfg seq s
        ++ table_rows cfg seqs' (advance (draws_per_sequence cfg) s)
  end.

(** A configuration whose fuel-flow range has its bounds swapped. *)
Definition inverted_config : config :=
  {| num_sequences := 1;
     sequence_length := 1;
     ranges :=
       {| Ranges.fuel_flow := (20, 1);
          Ranges.air_fuel_ratio := (6 / 10, 25);
          Ranges.current_temp := (25, 500);
          Ranges.inflow_temp := (100, 200);
          Ranges.inflow_rate := (50, 200) |} |}.

(** A configuration whose inflow-temperature range has its bounds swapped. *)
Definition swapped_inflow_config : config :=
  {| num_sequences := 2;
     sequence_length := 3;
     ranges :=
       {| Ranges.fuel_flow := (1, 20);
          Ranges.air_fuel_ratio := (6 / 10, 25);
          Ranges.current_temp := (25, 500);
          Ranges.inflow_temp := (200, 100);
          Ranges.inflow_rate := (50, 200) |} |}.

(** The constant source, used to instantiate the theorems. *)
Definition const_source (u : R) : source := fun _ => u.

(** The value the specification writes for the concrete scenario. *)
Definition scenario_temperature : R :=
  200 + (10 / 3600 * 39000 * 1 - 5 / 10000 * (200 - 25)
         - 2 / 10000 * (100 / 3600) * (200 - 150)) / (5000 * (5 / 10)).

(** * The trainer of [backend/train.py]

    The parts of the training script that are plain arithmetic on Python
    numbers or on tensors of known shape.  Tensors are modelled for one
    element of the batch, as lists of reals; every operation of the two
    network classes acts on each batch element independently. *)

(** ** Train and validation split *)

(** Python's [int(x)] on a float: truncation toward zero. *)
Definition py_int (x : R) : Z :=
  if Rle_dec 0 x then Int_part x else (- Int_part (- x))%Z.

(** [n_val = int(0.2 * n_total)] and [n_train = n_total - n_val]. *)
Definition n_val (n_total : Z) : Z := py_int (2 / 10 * IZR n_total).
Definition n_train (n_total : Z) : Z := (n_total - n_val n_total)%Z.



(** ** The network *)

(** Elementwise binary operation on two vectors of the same length. *)
Fixpoint zip_with {A B C : Type} (f : A -> B -> C) (a : list A) (b : list B)
    : list C :=
  match a, b with
  | x :: a', y :: b' => f x y :: zip_with f a' b'
  | _, _ => []
  end.

Definition dot (w v : list R) : R := fold_right Rplus 0 (zip_with Rmult w v).

(** [nn.Linear]: one row of weights and one bias per output. *)
Module Linear.
Record t : Type := mk {
  weight : list (list R);
  bias : list R
}.
Definition forward (l : t) (v : list R) : list R :=
  zip_with (fun row b => dot row v + b) (weight l) (bias l).
(** The shapes of [nn.Linear(n_in, n_out)]: an [n_out] by [n_in] matrix and
    [n_out] biases. *)
Definition shaped (l : t) (n_in n_out : nat) : Prop :=
  length (weight l) = n_out /\ length (bias l) = n_out
  /\ Forall (fun row => length row = n_in) (weight l).
End Linear.

Module LiquidCell.
Record t : Type := mk {
  theta : list R;
  fc : Linear.t
}.
(** [forward(self, x, u)]. *)
Definition forward (self : t) (x u : list R) : list R :=
  let inp := x ++ u in
  let dx := zip_with Rplus
              (zip_with Rmult (map Ropp (theta self)) x)
              (map tanh (Linear.forward (fc self) inp)) in
  let dt := 1 / 10 in
  zip_with Rplus x (map (Rmult dt) dx).
(** The shapes [__init__] gives the parameters: [hid_dim] decay rates and
    [nn.Linear(in_dim + hid_dim, hid_dim)]. *)
Definition shaped (self : t) (in_dim hid_dim : nat) : Prop :=
  length (theta self) = hid_dim
  /\ Linear.shaped (fc self) (in_dim + hid_dim) hid_dim.
End LiquidCell.

Module LiquidNN.
Record t : Type := mk {
  cell : LiquidCell.t;
  readout : Linear.t
}.
(** The loop [for t in range(T)] over the remaining inputs, with the state
    [x] and the list [outs] it appends to. *)
Fixpoint steps (self : t) (x : list R) (u_seq : list (list R))
    (outs : list (list R)) : list (list R) :=
  match u_seq with
  | [] => outs
  | u :: u_seq' =>
      let x' := LiquidCell.forward (cell self) x u in
      steps self x' u_seq' (outs ++ [Linear.forward (readout self) x'])
  end.
(** [forward(self, u_seq)]: the state starts at zero, one entry per
    component of [theta].  [torch.stack] refuses an empty list of tensors,
    which is what [outs] is when the sequence has no timestep: [None] stands
    for that error. *)
Definition forward (self : t) (u_seq : list (list R)) : option (list (list R)) :=
  match steps self (repeat 0 (length (LiquidCell.theta (cell self)))) u_seq [] with
  | [] => None
  | outs => Some outs
  end.
(** The shapes [__init__] gives the parameters, for [in_dim] input features,
    [hid_dim] state components and [out_dim] outputs. *)
Definition shaped (self : t) (in_dim hid_dim out_dim : nat) : Prop :=
  LiquidCell.shaped (cell self) in_dim hid_dim
  /\ Linear.shaped (readout self) hid_dim out_dim.
End LiquidNN.

(** A cell and a network used to instantiate the theorems. *)
Definition sample_cell : LiquidCell.t :=
  {| LiquidCell.theta := [1; 2];
     LiquidCell.fc := {| Linear.weight := [[1; 0; 1]; [0; 1; 1]];
                         Linear.bias := [0; 1] |} |}.

Definition sample_net : LiquidNN.t :=
  {| LiquidNN.cell := sample_cell;
     LiquidNN.readout := {| Linear.weight := [[1; 1]]; Linear.bias := [0] |} |}.

(** ** Scaling of the columns

    [df[cols].mean()] and [df[cols].std()] work column by column; one column
    of the data frame is a list of reals.  pandas' [std] is the sample
    standard deviation, with divisor [n - 1]. *)

Definition column_sum (xs : list R) : R := fold_right Rplus 0 xs.

Definition column_mean (xs : list R) : R := column_sum xs / INR (length xs).

Definition column_std (xs : list R) : R :=
  sqrt (column_sum (map (fun x => (x - column_mean xs) ^ 2) xs)
        / (INR (length xs) - 1)).

(** [(raw - means) / stds] on one column: every value of the column [raw] is
    scaled with the mean and the deviation of the whole column [xs]. *)
Definition normalize (xs raw : list R) : list R :=
  map (fun x => (x - column_mean xs) / column_std xs) raw.

(** * Properties of the primitives *)

Lemma py_max_l (a b : R) : a <= py_max a b.
Proof. unfold py_max. destruct (Rlt_dec a b); lra. Qed.

Lemma py_max_r (a b : R) : b <= py_max a b.
Proof. unfold py_max. destruct (Rlt_dec a b); lra. Qed.

Lemma py_max_lub (a b c : R) : a <= c -> b <= c -> py_max a b <= c.
Proof. unfold py_max. destruct (Rlt_dec a b); lra. Qed.

Lemma py_max_right (a b : R) : a <= b -> py_max a b = b.
Proof. unfold py_max. destruct (Rlt_dec a b); lra. Qed.

Lemma py_max_left (a b : R) : b <= a -> py_max a b = a.
Proof. unfold py_max. destruct (Rlt_dec a b); lra. Qed.

(** ** C1 *)

(** C1. Whatever the arguments and whatever value the random source hands
    out, [calculate_temperature] returns at least 25 and
    [calculate_excess_o2] returns at least 0.  The floor comes from the final
    [max] alone, so no condition on [noise_level] or on the draw is needed. *)
Theorem calculate_floor :
  forall (fuel_flow air_flow current_temp inflow_temp inflow_rate noise_level : R)
         (air_fuel_ratio o2_noise_level : R) (s : source),
    25 <= fst (calculate_temperature fuel_flow air_flow current_temp inflow_temp
                 inflow_rate noise_level s)
    /\ 0 <= fst (calculate_excess_o2 air_fuel_ratio fuel_flow current_temp
                   o2_noise_level s).
Proof.
  intros. split; cbn; apply py_max_l.
Qed.

(** * The two update functions *)

Lemma py_max_pos_r (a b : R) : 0 < b -> 0 < py_max a b.
Proof. intros Hb. pose proof (py_max_r a b). lra. Qed.

Lemma py_max_mono (a b c : R) : b <= c -> py_max a b <= py_max a c.
Proof. unfold py_max. destruct (Rlt_dec a b), (Rlt_dec a c); lra. Qed.

(** The Gaussian efficiency lies in (0, 1] and is 1 only at its centre. *)
Lemma gaussian_pos (x : R) : 0 < exp (- x ^ 2 / (2 * 2 ^ 2)).
Proof. apply exp_pos. Qed.

Lemma gaussian_le_1 (x : R) : exp (- x ^ 2 / (2 * 2 ^ 2)) <= 1.
Proof.
  rewrite <- exp_0.
  assert (H : - x ^ 2 / (2 * 2 ^ 2) <= 0) by (pose proof (pow2_ge_0 x); lra).
  destruct H as [H | H].
  - left. now apply exp_increasing.
  - rewrite H. right. reflexivity.
Qed.

Lemma gaussian_lt_1 (x : R) : x <> 0 -> exp (- x ^ 2 / (2 * 2 ^ 2)) < 1.
Proof.
  intros Hx. rewrite <- exp_0. apply exp_increasing.
  assert (0 < x ^ 2).
  { replace (x ^ 2) with (x * x) by ring.
    destruct (Rtotal_order x 0) as [Hn | [Hz | Hp]]; [nra | contradiction | nra]. }
  lra.
Qed.

Lemma gaussian_eq_1 (x : R) : exp (- x ^ 2 / (2 * 2 ^ 2)) = 1 -> x = 0.
Proof.
  intros H. destruct (Req_dec x 0) as [E | E]; [exact E|].
  pose proof (gaussian_lt_1 x E). lra.
Qed.

Lemma gaussian_centre : exp (- (147 / 10 - 147 / 10) ^ 2 / (2 * 2 ^ 2)) = 1.
Proof.
  replace (- (147 / 10 - 147 / 10) ^ 2 / (2 * 2 ^ 2)) with 0 by lra.
  apply exp_0.
Qed.

(** [calculate_temperature] with its local names unfolded. *)
Lemma temperature_of_draw_eq
    (fuel_flow air_flow current_temp inflow_temp inflow_rate noise_level u : R) :
  temperature_of_draw fuel_flow air_flow current_temp inflow_temp inflow_rate
    noise_level u
  = py_max 25
      (current_temp
       + (fuel_flow / 3600 * 39000
            * exp (- (air_flow / py_max fuel_flow (1 / 1000) - 147 / 10) ^ 2
                     / (2 * 2 ^ 2)) * 1
          - 5 / 10000 * (current_temp - 25) * 1
          - 2 / 10000 * (inflow_rate / 3600) * (current_temp - inflow_temp) * 1)
         / (5000 * (5 / 10))
       + (u - 5 / 10) * 2 * noise_level).
Proof. reflexivity. Qed.

(** [calculate_excess_o2] with its local names unfolded. *)
Lemma excess_o2_of_draw_eq (air_fuel_ratio fuel_flow current_temp noise_level u : R) :
  excess_o2_of_draw air_fuel_ratio fuel_flow current_temp noise_level u
  = py_max 0
      (py_max 0
         (1 - 5 / 10000 * 10 * (1800 - current_temp)
              / py_max (fuel_flow / 3600 * 39000
                          * exp (- (air_fuel_ratio - 147 / 10) ^ 2 / (2 * 2 ^ 2)))
                       (1 / 1000000)) * 21
       + (u - 5 / 10) * 2 * noise_level).
Proof. reflexivity. Qed.

(** ** C2 *)

(** C2. With fuel_flow 10, air_flow 147, current_temp 200, inflow_temp 150,
    inflow_rate 100 and noise_level 0, [calculate_temperature] returns, for
    every state of the random source, the value of the stated balance
    200 + (10/3600*39000*1 - 0.0005*(200-25) - 0.0002*(100/3600)*(200-150))
    / (5000*0.5): the two are equal over the reals, hence within 1e-6. *)
Theorem calculate_temperature_scenario :
  forall s : source,
    fst (calculate_temperature 10 147 200 150 100 0 s) = scenario_temperature
    /\ Rabs (fst (calculate_temperature 10 147 200 150 100 0 s)
             - scenario_temperature) < 1 / 1000000.
Proof.
  intros s.
  assert (E : fst (calculate_temperature 10 147 200 150 100 0 s)
              = scenario_temperature).
  { cbn [calculate_temperature bind np_random_rand ret fst].
    rewrite temperature_of_draw_eq.
    rewrite (py_max_left 10 (1 / 1000)) by lra.
    replace (147 / 10) with (147 / 10 + 0) at 1 by lra.
    replace (147 / 10 + 0 - 147 / 10) with (147 / 10 - 147 / 10) by lra.
    rewrite gaussian_centre.
    unfold scenario_temperature.
    rewrite py_max_right by lra. lra. }
  split; [exact E|].
  rewrite E. replace (scenario_temperature - scenario_temperature) with 0 by lra.
  rewrite Rabs_R0. lra.
Qed.

(** ** C3 *)

(** C3. With air_fuel_ratio 14.7, current_temp 1800 and noise_level 0,
    [calculate_excess_o2] returns exactly 21 for every positive fuel_flow and
    every state of the random source: the transfer rate is zero, the lost
    fraction is 1. *)
Theorem calculate_excess_o2_at_flame :
  forall (fuel_flow : R) (s : source),
    0 < fuel_flow ->
    fst (calculate_excess_o2 (147 / 10) fuel_flow 1800 0 s) = 21.
Proof.
  intros fuel_flow s _.
  cbn [calculate_excess_o2 bind np_random_rand ret fst].
  rewrite excess_o2_of_draw_eq.
  set (m := py_max _ (1 / 1000000)).
  assert (Hm : 0 < m) by (apply py_max_pos_r; lra).
  replace (1 - 5 / 10000 * 10 * (1800 - 1800) / m) with 1
    by (field; lra).
  rewrite (py_max_right 0 1) by lra.
  rewrite py_max_right by lra. lra.
Qed.

Lemma calculate_excess_o2_at_flame_witness :
  0 < 10 /\ fst (calculate_excess_o2 (147 / 10) 10 1800 0 (const_source (1 / 2))) = 21.
Proof.
  split; [lra | apply calculate_excess_o2_at_flame; lra].
Defined.

(** ** C10 *)

(** The lost fraction is at most 1 when the flame is not colder than the
    furnace. *)
Lemma lost_fraction_le_1 (q_comb current_temp : R) :
  current_temp <= 1800 ->
  py_max 0 (1 - 5 / 10000 * 10 * (1800 - current_temp)
                / py_max q_comb (1 / 1000000)) <= 1.
Proof.
  intros Hc.
  set (m := py_max q_comb (1 / 1000000)).
  assert (Hm : 0 < m) by (apply py_max_pos_r; lra).
  apply py_max_lub; [lra|].
  assert (0 <= 5 / 10000 * 10 * (1800 - current_temp) / m).
  { apply Rmult_le_pos; [lra|]. left. now apply Rinv_0_lt_compat. }
  lra.
Qed.

(** C10. With noise_level 0 and current_temp at most 1800,
    [calculate_excess_o2] returns at most 21, for every air-fuel ratio,
    every positive fuel_flow and every state of the random source.  The
    function has no upper clamp: above 1800 the reading exceeds 21, as at
    current_temp 1900 with air_fuel_ratio 14.7 and fuel_flow 1. *)
Theorem calculate_excess_o2_upper :
  (forall (air_fuel_ratio fuel_flow current_temp : R) (s : source),
      0 < fuel_flow -> current_temp <= 1800 ->
      fst (calculate_excess_o2 air_fuel_ratio fuel_flow current_temp 0 s) <= 21)
  /\ (forall s : source,
         21 < fst (calculate_excess_o2 (147 / 10) 1 1900 0 s)).
Proof.
  split.
  - intros afr fuel_flow current_temp s _ Hc.
    cbn [calculate_excess_o2 bind np_random_rand ret fst].
    rewrite excess_o2_of_draw_eq.
    pose proof (lost_fraction_le_1
                  (fuel_flow / 3600 * 39000
                     * exp (- (afr - 147 / 10) ^ 2 / (2 * 2 ^ 2)))
                  current_temp Hc) as Hf.
    apply py_max_lub; lra.
  - intros s.
    cbn [calculate_excess_o2 bind np_random_rand ret fst].
    rewrite excess_o2_of_draw_eq, gaussian_centre.
    rewrite (py_max_left (1 / 3600 * 39000 * 1)) by lra.
    replace (1 - 5 / 10000 * 10 * (1800 - 1900) / (1 / 3600 * 39000 * 1))
      with (1 + 3 / 65) by (field; lra).
    rewrite (py_max_right 0 (1 + 3 / 65)) by lra.
    rewrite py_max_right by lra. lra.
Qed.

Lemma calculate_excess_o2_upper_witness :
  0 < 10 /\ 500 <= 1800
  /\ fst (calculate_excess_o2 12 10 500 0 (const_source (1 / 2))) <= 21.
Proof.
  split; [lra|]. split; [lra|].
  apply (proj1 calculate_excess_o2_upper); lra.
Defined.

(** ** C4 *)

(** Without noise the result grows with the efficiency. *)
Lemma temperature_mono_efficiency (k e1 e2 rest : R) :
  0 <= k -> e1 <= e2 ->
  py_max 25 (rest + (k * e1 * 1) / (5000 * (5 / 10)))
  <= py_max 25 (rest + (k * e2 * 1) / (5000 * (5 / 10))).
Proof.
  intros Hk He. apply py_max_mono.
  assert (k * e1 <= k * e2) by (apply Rmult_le_compat_l; assumption).
  lra.
Qed.

(** The noise-free result as the floor of a sum that isolates the
    combustion term. *)
Lemma temperature_noise_free
    (fuel_flow air_flow current_temp inflow_temp inflow_rate : R) (s : source) :
  fst (calculate_temperature fuel_flow air_flow current_temp inflow_temp
         inflow_rate 0 s)
  = py_max 25
      (current_temp
       - (5 / 10000 * (current_temp - 25)
          + 2 / 10000 * (inflow_rate / 3600) * (current_temp - inflow_temp))
         / (5000 * (5 / 10))
       + (fuel_flow / 3600 * 39000
          * exp (- (air_flow / py_max fuel_flow (1 / 1000) - 147 / 10) ^ 2
                   / (2 * 2 ^ 2)) * 1)
         / (5000 * (5 / 10))).
Proof.
  cbn [calculate_temperature bind np_random_rand ret fst].
  rewrite temperature_of_draw_eq. f_equal. lra.
Qed.

(** C4, as the code has it.  The ratio the code uses is
    air_flow / max(fuel_flow, 1e-3), and the result is floored at 25.  So for
    fuel_flow >= 1e-3 and noise_level 0 the value at
    air_flow = 14.7 * fuel_flow is a maximum over all air_flow, and when that
    maximum is above the floor it is attained only where
    air_flow / fuel_flow = 14.7. *)
Theorem temperature_peak_at_optimal_ratio :
  forall (fuel_flow current_temp inflow_temp inflow_rate : R) (s : source),
    1 / 1000 <= fuel_flow ->
    let T := fun air_flow =>
      fst (calculate_temperature fuel_flow air_flow current_temp inflow_temp
             inflow_rate 0 s) in
    (forall air_flow, T air_flow <= T (147 / 10 * fuel_flow))
    /\ (25 < T (147 / 10 * fuel_flow) ->
        forall air_flow,
          T air_flow = T (147 / 10 * fuel_flow) -> air_flow / fuel_flow = 147 / 10).
Proof.
  intros ff ct it ir s Hff T.
  assert (Hm : py_max ff (1 / 1000) = ff) by (apply py_max_left; lra).
  assert (Hpeak : 147 / 10 * ff / ff - 147 / 10 = 0) by (field; lra).
  assert (HT : forall a,
    T a = py_max 25
            (ct - (5 / 10000 * (ct - 25) + 2 / 10000 * (ir / 3600) * (ct - it))
                  / (5000 * (5 / 10))
             + (ff / 3600 * 39000
                * exp (- (a / ff - 147 / 10) ^ 2 / (2 * 2 ^ 2)) * 1)
               / (5000 * (5 / 10)))).
  { intros a. unfold T. rewrite temperature_noise_free, Hm. reflexivity. }
  assert (Hk : 0 < ff / 3600 * 39000) by lra.
  split.
  - intros a. rewrite !HT, Hpeak.
    apply temperature_mono_efficiency; [lra|].
    replace (- 0 ^ 2 / (2 * 2 ^ 2)) with 0 by lra.
    rewrite exp_0. apply gaussian_le_1.
  - intros Hgt a Ha.
    rewrite (HT a), (HT (147 / 10 * ff)), Hpeak in Ha.
    rewrite HT, Hpeak in Hgt.
    replace (- 0 ^ 2 / (2 * 2 ^ 2)) with 0 in Ha, Hgt by lra.
    rewrite exp_0 in Ha, Hgt.
    set (e := exp (- (a / ff - 147 / 10) ^ 2 / (2 * 2 ^ 2))) in *.
    assert (He : e = 1).
    { pose proof (gaussian_le_1 (a / ff - 147 / 10)) as Hle. fold e in Hle.
      revert Ha Hgt. unfold py_max.
      repeat match goal with |- context [Rlt_dec ?x ?y] => destruct (Rlt_dec x y) end;
        intros Ha Hgt; try lra; nra. }
    apply gaussian_eq_1 in He. lra.
Qed.

Lemma temperature_peak_at_optimal_ratio_witness :
  1 / 1000 <= 10
  /\ fst (calculate_temperature 10 0 200 150 100 0 (const_source (1 / 2)))
     <= fst (calculate_temperature 10 (147 / 10 * 10) 200 150 100 0
               (const_source (1 / 2))).
Proof.
  split; [lra|].
  apply (proj1 (temperature_peak_at_optimal_ratio 10 200 150 100
                  (const_source (1 / 2)) ltac:(lra))).
Defined.

(** C4 fails as stated, on both sides of its "exactly when".  Below the
    guard, at fuel_flow 0.0005, the air flow with air_flow / fuel_flow = 14.7
    gives a strictly lower temperature than air_flow 0.0147.  And at
    current_temp -1000 the floor makes the result 25 for every air flow, so
    the maximum is also attained at air_flow 0. *)
Lemma temperature_peak_not_at_ratio :
  (0 < 1 / 2000
   /\ (147 / 20000) / (1 / 2000) = 147 / 10
   /\ fst (calculate_temperature (1 / 2000) (147 / 20000) 200 150 100 0
             (const_source 0))
      < fst (calculate_temperature (1 / 2000) (147 / 10000) 200 150 100 0
               (const_source 0)))
  /\ ((forall air_flow,
         fst (calculate_temperature 1 air_flow (-1000) 0 0 0 (const_source 0))
         <= fst (calculate_temperature 1 0 (-1000) 0 0 0 (const_source 0)))
      /\ 0 / 1 <> 147 / 10).
Proof.
  split.
  - split; [lra|]. split; [field|].
    rewrite !temperature_noise_free.
    rewrite (py_max_right (1 / 2000) (1 / 1000)) by lra.
    replace (147 / 10000 / (1 / 1000) - 147 / 10) with 0 by field.
    replace (- 0 ^ 2 / (2 * 2 ^ 2)) with 0 by lra.
    rewrite exp_0.
    assert (Hx : 147 / 20000 / (1 / 1000) - 147 / 10 <> 0).
    { replace (147 / 20000 / (1 / 1000) - 147 / 10) with (- (147 / 20)) by field.
      lra. }
    pose proof (gaussian_lt_1 _ Hx) as Hlt.
    pose proof (gaussian_pos (147 / 20000 / (1 / 1000) - 147 / 10)) as Hpos.
    set (e := exp _) in *.
    rewrite !py_max_right by lra. lra.
  - split; [|lra].
    intros a. rewrite !temperature_noise_free.
    rewrite (py_max_left 1 (1 / 1000)) by lra.
    pose proof (gaussian_le_1 (a / 1 - 147 / 10)) as H1.
    pose proof (gaussian_le_1 (0 / 1 - 147 / 10)) as H2.
    pose proof (gaussian_pos (a / 1 - 147 / 10)) as H3.
    pose proof (gaussian_pos (0 / 1 - 147 / 10)) as H4.
    rewrite !py_max_left by lra. lra.
Qed.

(** * The generation loop *)

(** ** The random source *)

Lemma advance_advance (a b : nat) (s : source) :
  advance a (advance b s) = advance (b + a) s.
Proof.
  apply functional_extensionality. intros n. unfold advance.
  f_equal. lia.
Qed.

Lemma advance_0 (s : source) : advance 0 s = s.
Proof. reflexivity. Qed.

Lemma advance_valid (k : nat) (s : source) :
  valid_source s -> valid_source (advance k s).
Proof. intros H n. apply H. Qed.

Lemma const_source_valid (u : R) : 0 <= u < 1 -> valid_source (const_source u).
Proof. intros H n. exact H. Qed.

(** ** The loops emit the rows of the closed description *)

Lemma simulate_steps_rows (cfg : config) (seq : Z) (fuel_flow afr air_flow : R) :
  forall (ts : list Z) (current_temp inflow_temp inflow_rate : R)
         (records : list Row.t) (s : source),
    simulate_steps cfg seq fuel_flow afr air_flow ts
      current_temp inflow_temp inflow_rate records s
    = (records ++ steps_rows cfg seq fuel_flow afr air_flow ts
                    current_temp inflow_temp inflow_rate s,
       advance (draws_per_step * length ts) s).
Proof.
  induction ts as [| t ts IH]; intros ct it ir records s.
  - cbn. now rewrite app_nil_r.
  - cbn [simulate_steps steps_rows].
    unfold calculate_temperature, calculate_excess_o2, bind, np_random_rand, ret.
    rewrite IH. rewrite <- app_assoc. cbn [app].
    f_equal.
    rewrite !advance_advance. f_equal.
    cbn [length]. unfold draws_per_step. lia.
Qed.

Lemma generate_sequences_rows (cfg : config) :
  forall (seqs : list Z) (records : list Row.t) (s : source),
    generate_sequences cfg seqs records s
    = (records ++ table_rows cfg seqs s,
       advance (length seqs * draws_per_sequence cfg) s).
Proof.
  induction seqs as [| seq seqs IH]; intros records s.
  - cbn. now rewrite app_nil_r.
  - cbn [generate_sequences table_rows].
    unfold sample, np_random_uniform, bind, np_random_rand, ret.
    rewrite simulate_steps_rows.
    rewrite IH, <- app_assoc, !advance_advance.
    unfold draws_per_sequence, range. rewrite !length_map, !length_seq.
    cbn [length].
    apply injective_projections; cbn [fst snd]; [reflexivity | f_equal; lia].
Qed.

Lemma table_eq (cfg : config) (s : source) :
  table cfg s = table_rows cfg (range (num_sequences cfg)) s.
Proof.
  unfold table, generate. now rewrite generate_sequences_rows.
Qed.

(** ** Shape of the table *)

Lemma steps_rows_length (cfg : config) (seq : Z) (fuel_flow afr air_flow : R) :
  forall (ts : list Z) (ct it ir : R) (s : source),
    length (steps_rows cfg seq fuel_flow afr air_flow ts ct it ir s) = length ts.
Proof.
  induction ts as [| t ts IH]; intros ct it ir s; cbn; [reflexivity|].
  now rewrite IH.
Qed.

Lemma steps_rows_sequence (cfg : config) (seq : Z) (fuel_flow afr air_flow : R) :
  forall (ts : list Z) (ct it ir : R) (s : source) (r : Row.t),
    In r (steps_rows cfg seq fuel_flow afr air_flow ts ct it ir s) ->
    Row.sequence r = seq.
Proof.
  induction ts as [| t ts IH]; intros ct it ir s r; cbn; [tauto|].
  intros [<- | Hin]; [reflexivity | eauto].
Qed.

Lemma steps_rows_timesteps (cfg : config) (seq : Z) (fuel_flow afr air_flow : R) :
  forall (ts : list Z) (ct it ir : R) (s : source),
    map Row.timestep (steps_rows cfg seq fuel_flow afr air_flow ts ct it ir s) = ts.
Proof.
  induction ts as [| t ts IH]; intros ct it ir s; cbn; [reflexivity|].
  now rewrite IH.
Qed.

Lemma range_length (n : Z) : length (range n) = Z.to_nat n.
Proof. unfold range. now rewrite length_map, length_seq. Qed.

Lemma sequence_rows_length (cfg : config) (seq : Z) (s : source) :
  length (sequence_rows cfg seq s) = Z.to_nat (sequence_length cfg).
Proof. unfold sequence_rows. now rewrite steps_rows_length, range_length. Qed.

Lemma table_rows_length (cfg : config) :
  forall (seqs : list Z) (s : source),
    length (table_rows cfg seqs s)
    = (length seqs * Z.to_nat (sequence_length cfg))%nat.
Proof.
  induction seqs as [| seq seqs IH]; intros s; cbn [table_rows length]; [reflexivity|].
  rewrite length_app, sequence_rows_length, IH. lia.
Qed.

Lemma table_length (cfg : config) (s : source) :
  length (table cfg s)
  = (Z.to_nat (num_sequences cfg) * Z.to_nat (sequence_length cfg))%nat.
Proof. now rewrite table_eq, table_rows_length, range_length. Qed.

(** Keeping the rows of sequence [i] from the rows of sequence [seq]. *)
Lemma filter_all {A : Type} (f : A -> bool) (l : list A) :
  (forall x, In x l -> f x = true) -> filter f l = l.
Proof.
  induction l as [| a l IH]; intros H; cbn; [reflexivity|].
  rewrite (H a) by (now left). f_equal. apply IH. intros x Hx. apply H. now right.
Qed.

Lemma filter_none {A : Type} (f : A -> bool) (l : list A) :
  (forall x, In x l -> f x = false) -> filter f l = [].
Proof.
  induction l as [| a l IH]; intros H; cbn; [reflexivity|].
  rewrite (H a) by (now left). apply IH. intros x Hx. apply H. now right.
Qed.

Lemma sequence_rows_select (cfg : config) (seq i : Z) (s : source) :
  map Row.timestep
    (filter (fun r => Z.eqb (Row.sequence r) i) (sequence_rows cfg seq s))
  = if Z.eqb seq i then range (sequence_length cfg) else [].
Proof.
  unfold sequence_rows.
  destruct (Z.eqb_spec seq i) as [E | E].
  - rewrite filter_all; [apply steps_rows_timesteps|].
    intros r Hr. apply steps_rows_sequence in Hr. apply Z.eqb_eq. congruence.
  - rewrite filter_none; [reflexivity|].
    intros r Hr. apply steps_rows_sequence in Hr. apply Z.eqb_neq. congruence.
Qed.

Lemma table_rows_select (cfg : config) (i : Z) :
  forall (seqs : list Z) (s : source),
    map Row.timestep
      (filter (fun r => Z.eqb (Row.sequence r) i) (table_rows cfg seqs s))
    = flat_map (fun seq => if Z.eqb seq i then range (sequence_length cfg) else [])
        seqs.
Proof.
  induction seqs as [| seq seqs IH]; intros s; cbn [table_rows flat_map]; [reflexivity|].
  now rewrite filter_app, map_app, sequence_rows_select, IH.
Qed.

(** In [range]-like lists an identifier is met once, or not at all. *)
Lemma select_in_seq {A : Type} (l : list A) (i : nat) :
  forall (n a : nat),
    flat_map (fun j => if Z.eqb j (Z.of_nat i) then l else [])
      (map Z.of_nat (seq a n))
    = if andb (a <=? i)%nat (i <? a + n)%nat then l else [].
Proof.
  induction n as [| n IH]; intros a; cbn [seq map flat_map].
  - destruct (Nat.leb_spec a i), (Nat.ltb_spec i (a + 0)); cbn; try reflexivity; lia.
  - rewrite IH.
    destruct (Z.eqb_spec (Z.of_nat a) (Z.of_nat i)) as [E | E].
    + apply Nat2Z.inj in E. subst a.
      destruct (Nat.leb_spec (S i) i); [lia|].
      destruct (Nat.leb_spec i i); [|lia].
      destruct (Nat.ltb_spec i (i + S n)); [|lia].
      cbn. now rewrite app_nil_r.
    + assert (a <> i) by congruence.
      destruct (Nat.leb_spec (S a) i), (Nat.leb_spec a i),
               (Nat.ltb_spec i (S a + n)), (Nat.ltb_spec i (a + S n));
        cbn; try reflexivity; lia.
Qed.

Lemma table_select (cfg : config) (s : source) (i : Z) :
  (0 <= i < num_sequences cfg)%Z ->
  map Row.timestep (filter (fun r => Z.eqb (Row.sequence r) i) (table cfg s))
  = range (sequence_length cfg).
Proof.
  intros Hi. rewrite table_eq, table_rows_select.
  rewrite <- (Z2Nat.id i) by lia. unfold range at 2.
  rewrite select_in_seq.
  destruct (Nat.leb_spec 0 (Z.to_nat i)); [|lia].
  destruct (Nat.ltb_spec (Z.to_nat i) (0 + Z.to_nat (num_sequences cfg)));
    [reflexivity | lia].
Qed.

(** ** C5 *)

(** C5. A run with num_sequences = N and sequence_length = L emits exactly
    N * L rows; every identifier in 0..N-1 labels exactly L rows; and the
    timesteps of the rows of one sequence, read in emission order, are
    0, 1, ..., L-1. *)
Theorem table_shape :
  forall (cfg : config) (s : source),
    let N := num_sequences cfg in
    let L := sequence_length cfg in
    (0 <= N)%Z -> (0 <= L)%Z ->
    Z.of_nat (length (table cfg s)) = (N * L)%Z
    /\ forall i : Z, (0 <= i < N)%Z ->
         let rows_i := filter (fun r => Z.eqb (Row.sequence r) i) (table cfg s) in
         Z.of_nat (length rows_i) = L
         /\ map Row.timestep rows_i = range L.
Proof.
  intros cfg s N L HN HL. split.
  - rewrite table_length. fold N L. lia.
  - intros i Hi rows_i.
    assert (E : map Row.timestep rows_i = range L) by (now apply table_select).
    split; [|exact E].
    rewrite <- (length_map Row.timestep), E, range_length. lia.
Qed.

Lemma table_shape_witness :
  let s := const_source (1 / 2) in
  Z.of_nat (length (table default_config s)) = (10000 * 30)%Z
  /\ forall i : Z, (0 <= i < 10000)%Z ->
       let rows_i :=
         filter (fun r => Z.eqb (Row.sequence r) i) (table default_config s) in
       Z.of_nat (length rows_i) = 30%Z
       /\ map Row.timestep rows_i = range 30.
Proof.
  intros s.
  apply (table_shape default_config s); cbn; lia.
Defined.

(** ** Invariants of the loops *)

(** A property of rows that one timestep establishes, from a property of the
    loop state that it maintains, holds of every row of a sequence. *)
Lemma steps_rows_invariant (cfg : config) (seq : Z) (fuel_flow afr air_flow : R)
    (P : Z -> R -> R -> R -> Prop) (Q : Row.t -> Prop) :
  (forall (t : Z) (ct it ir : R) (s : source),
      valid_source s -> P t ct it ir ->
      Q (step_row seq t fuel_flow afr air_flow ct it ir s)
      /\ P (t + 1)%Z
           (temperature_of_draw fuel_flow air_flow ct it ir 1 (s 0%nat))
           (walk_temp cfg it (s 2%nat))
           (walk_rate cfg ir (s 3%nat))) ->
  forall (n a : nat) (ct it ir : R) (s : source),
    valid_source s -> P (Z.of_nat a) ct it ir ->
    forall r : Row.t,
      In r (steps_rows cfg seq fuel_flow afr air_flow
              (map Z.of_nat (List.seq a n)) ct it ir s) ->
      Q r.
Proof.
  intros Hstep.
  induction n as [| n IH]; intros a ct it ir s Hs HP r; cbn [List.seq map steps_rows].
  - intros [].
  - destruct (Hstep _ _ _ _ s Hs HP) as [HQ HP'].
    intros [<- | Hin]; [exact HQ|].
    revert Hin. apply IH.
    + now apply advance_valid.
    + rewrite Nat2Z.inj_succ. unfold Z.succ. exact HP'.
Qed.

(** What holds of the rows of every sequence holds of the table. *)
Lemma table_rows_invariant (cfg : config) (Q : Row.t -> Prop) :
  (forall (seq : Z) (s : source),
      valid_source s -> forall r, In r (sequence_rows cfg seq s) -> Q r) ->
  forall (seqs : list Z) (s : source),
    valid_source s -> forall r, In r (table_rows cfg seqs s) -> Q r.
Proof.
  intros Hseq.
  induction seqs as [| seq seqs IH]; intros s Hs r; cbn [table_rows].
  - intros [].
  - rewrite in_app_iff. intros [Hin | Hin].
    + exact (Hseq seq s Hs r Hin).
    + apply (IH (advance (draws_per_sequence cfg) s)); [|exact Hin].
      now apply advance_valid.
Qed.

Lemma np_clip_bounds (x lo hi : R) : lo <= hi -> lo <= np_clip x lo hi <= hi.
Proof.
  intros H. unfold np_clip, np_minimum, np_maximum.
  destruct (Rle_dec x lo); destruct (Rle_dec _ hi); lra.
Qed.

Lemma uniform_of_bounds (lo hi u : R) :
  lo <= hi -> 0 <= u < 1 -> lo <= uniform_of (lo, hi) u <= hi.
Proof. intros H Hu. unfold uniform_of. cbn [fst snd]. nra. Qed.

(** ** C6 *)

(** C6. With the ranges of the source, for any number and length of
    sequences and any well-formed random source, every row of the table has
    its inflow_temp in [100, 200] and its inflow_rate in [50, 200]. *)
Theorem inflow_within_ranges :
  forall (N L : Z) (s : source),
    valid_source s ->
    forall r : Row.t,
      In r (table (sized_config N L) s) ->
      100 <= Row.inflow_temp r <= 200 /\ 50 <= Row.inflow_rate r <= 200.
Proof.
  intros N L s Hs r. rewrite table_eq. revert s Hs r.
  apply table_rows_invariant. intros seq s Hs r.
  unfold sequence_rows, range.
  apply (steps_rows_invariant _ _ _ _ _
           (fun _ _ it ir => 100 <= it <= 200 /\ 50 <= ir <= 200)
           (fun r => 100 <= Row.inflow_temp r <= 200
                     /\ 50 <= Row.inflow_rate r <= 200)).
  - intros t ct it ir s' Hs' HP. split; [exact HP|].
    split; [apply (np_clip_bounds _ 100 200) | apply (np_clip_bounds _ 50 200)]; lra.
  - now apply advance_valid.
  - split.
    + apply (uniform_of_bounds 100 200); [lra | apply Hs].
    + apply (uniform_of_bounds 50 200); [lra | apply Hs].
Qed.

Lemma inflow_within_ranges_witness :
  valid_source (const_source (1 / 2))
  /\ forall r : Row.t,
       In r (table (sized_config 3 4) (const_source (1 / 2))) ->
       100 <= Row.inflow_temp r <= 200 /\ 50 <= Row.inflow_rate r <= 200.
Proof.
  assert (H : valid_source (const_source (1 / 2)))
    by (apply const_source_valid; lra).
  split; [exact H|].
  exact (inflow_within_ranges 3 4 (const_source (1 / 2)) H).
Defined.

(** ** Magnitude of the emitted values *)

(** The divisors of the two update functions are positive: no division by
    zero occurs. *)
Lemma divisors_positive (fuel_flow q_comb : R) :
  0 < py_max fuel_flow (1 / 1000) /\ 0 < py_max q_comb (1 / 1000000).
Proof. split; apply py_max_pos_r; lra. Qed.

(** One step raises the temperature by less than 1.1 under the sampled
    ranges. *)
Lemma temperature_step_upper (fuel_flow air_flow ct it ir u : R) :
  0 <= fuel_flow <= 20 -> 25 <= ct -> 100 <= it <= 200 -> 50 <= ir <= 200 ->
  0 <= u < 1 ->
  temperature_of_draw fuel_flow air_flow ct it ir 1 u <= ct + 11 / 10.
Proof.
  intros Hf Hc Hit Hir Hu. rewrite temperature_of_draw_eq.
  pose proof (gaussian_pos (air_flow / py_max fuel_flow (1 / 1000) - 147 / 10)) as H0.
  pose proof (gaussian_le_1 (air_flow / py_max fuel_flow (1 / 1000) - 147 / 10)) as H1.
  set (e := exp _) in *.
  assert (Hfe : fuel_flow * e <= 20) by nra.
  assert (Hmix : - 35000 <= ir * (ct - it)) by nra.
  apply py_max_lub; lra.
Qed.

(** The reading is at most 21.2 while the furnace is not hotter than the
    flame, and bounded in terms of the excess over 1800 otherwise. *)
Lemma excess_o2_upper (afr fuel_flow ct u : R) :
  0 <= u < 1 ->
  excess_o2_of_draw afr fuel_flow ct (2 / 10) u
  <= 212 / 10 + 105000 * Rmax 0 (ct - 1800).
Proof.
  intros Hu. rewrite excess_o2_of_draw_eq.
  set (q := fuel_flow / 3600 * 39000 * exp _).
  assert (Hr : 0 <= Rmax 0 (ct - 1800)) by apply Rmax_l.
  assert (Hr' : ct - 1800 <= Rmax 0 (ct - 1800)) by apply Rmax_r.
  destruct (Rle_dec ct 1800) as [Hc | Hc].
  - pose proof (lost_fraction_le_1 q ct Hc) as Hf.
    apply py_max_lub; lra.
  - assert (Hm : 1 / 1000000 <= py_max q (1 / 1000000)) by apply py_max_r.
    set (m := py_max q (1 / 1000000)) in *.
    assert (Hinv : / m <= 1000000).
    { replace 1000000 with (/ (1 / 1000000)) by (field; lra).
      apply Rinv_le_contravar; lra. }
    assert (Hinv0 : 0 < / m) by (apply Rinv_0_lt_compat; lra).
    assert (Hfrac : py_max 0 (1 - 5 / 10000 * 10 * (1800 - ct) / m)
                    <= 1 + 5000 * (ct - 1800)).
    { apply py_max_lub; [lra|]. unfold Rdiv. nra. }
    apply py_max_lub; lra.
Qed.

(** ** C8 *)

(** C8, over the reals.  With the ranges of the source, for any number and
    length of sequences and any well-formed random source, every numeric
    column of every row lies in an explicit bounded interval: fuel_flow in
    [1, 20], air_fuel_ratio in [0.6, 25], inflow_temp in [100, 200],
    inflow_rate in [50, 200], current_temp between 25 and 500 + 1.1 * timestep,
    next_temp between 25 and 500 + 1.1 * (timestep + 1), and next_excess_o2
    between 0 and 21.2 + 105000 * max(0, current_temp - 1800).  In particular
    no temperature is below ambient and no reading is negative. *)
Theorem rows_bounded :
  forall (N L : Z) (s : source),
    valid_source s ->
    forall r : Row.t,
      In r (table (sized_config N L) s) ->
      1 <= Row.fuel_flow r <= 20
      /\ 6 / 10 <= Row.air_fuel_ratio r <= 25
      /\ 25 <= Row.current_temp r <= 500 + 11 / 10 * IZR (Row.timestep r)
      /\ 100 <= Row.inflow_temp r <= 200
      /\ 50 <= Row.inflow_rate r <= 200
      /\ 25 <= Row.next_temp r <= 500 + 11 / 10 * (IZR (Row.timestep r) + 1)
      /\ 0 <= Row.next_excess_o2 r
           <= 212 / 10 + 105000 * Rmax 0 (Row.current_temp r - 1800).
Proof.
  intros N L s Hs r. rewrite table_eq. revert s Hs r.
  apply table_rows_invariant. intros seq s Hs r.
  unfold sequence_rows, range.
  set (ff := uniform_of _ (s 0%nat)). set (afr := uniform_of _ (s 1%nat)).
  assert (Hff : 1 <= ff <= 20) by (apply uniform_of_bounds; [lra | apply Hs]).
  assert (Hafr : 6 / 10 <= afr <= 25) by (apply uniform_of_bounds; [lra | apply Hs]).
  apply (steps_rows_invariant _ _ _ _ _
           (fun t ct it ir =>
              25 <= ct <= 500 + 11 / 10 * IZR t
              /\ 100 <= it <= 200 /\ 50 <= ir <= 200)
           (fun r =>
              1 <= Row.fuel_flow r <= 20
              /\ 6 / 10 <= Row.air_fuel_ratio r <= 25
              /\ 25 <= Row.current_temp r <= 500 + 11 / 10 * IZR (Row.timestep r)
              /\ 100 <= Row.inflow_temp r <= 200
              /\ 50 <= Row.inflow_rate r <= 200
              /\ 25 <= Row.next_temp r <= 500 + 11 / 10 * (IZR (Row.timestep r) + 1)
              /\ 0 <= Row.next_excess_o2 r
                   <= 212 / 10 + 105000 * Rmax 0 (Row.current_temp r - 1800))).
  - intros t ct it ir s' Hs' (Hct & Hit & Hir).
    assert (Hnt : 25 <= temperature_of_draw ff (ff * afr) ct it ir 1 (s' 0%nat)
                  <= ct + 11 / 10).
    { split; [apply py_max_l|]. apply temperature_step_upper; try lra. apply Hs'. }
    cbn [step_row Row.fuel_flow Row.air_fuel_ratio Row.current_temp
         Row.inflow_temp Row.inflow_rate Row.next_temp Row.next_excess_o2
         Row.timestep].
    repeat split; try lra.
    + apply py_max_l.
    + apply excess_o2_upper. apply Hs'.
    + rewrite plus_IZR. lra.
    + apply (np_clip_bounds _ 100 200); lra.
    + apply (np_clip_bounds _ 100 200); lra.
    + apply (np_clip_bounds _ 50 200); lra.
    + apply (np_clip_bounds _ 50 200); lra.
  - now apply advance_valid.
  - cbn [Z.of_nat]. repeat split.
    + apply (uniform_of_bounds 25 500); [lra | apply Hs].
    + replace (500 + 11 / 10 * 0) with 500 by lra.
      apply (uniform_of_bounds 25 500); [lra | apply Hs].
    + apply (uniform_of_bounds 100 200); [lra | apply Hs].
    + apply (uniform_of_bounds 100 200); [lra | apply Hs].
    + apply (uniform_of_bounds 50 200); [lra | apply Hs].
    + apply (uniform_of_bounds 50 200); [lra | apply Hs].
Qed.

Lemma rows_bounded_witness :
  valid_source (const_source (1 / 2))
  /\ forall r : Row.t,
       In r (table (sized_config 3 4) (const_source (1 / 2))) ->
       1 <= Row.fuel_flow r <= 20
       /\ 6 / 10 <= Row.air_fuel_ratio r <= 25
       /\ 25 <= Row.current_temp r <= 500 + 11 / 10 * IZR (Row.timestep r)
       /\ 100 <= Row.inflow_temp r <= 200
       /\ 50 <= Row.inflow_rate r <= 200
       /\ 25 <= Row.next_temp r <= 500 + 11 / 10 * (IZR (Row.timestep r) + 1)
       /\ 0 <= Row.next_excess_o2 r
            <= 212 / 10 + 105000 * Rmax 0 (Row.current_temp r - 1800).
Proof.
  assert (H : valid_source (const_source (1 / 2)))
    by (apply const_source_valid; lra).
  split; [exact H|].
  exact (rows_bounded 3 4 (const_source (1 / 2)) H).
Defined.

(** ** Consecutive rows of a sequence *)

(** Row number [i * L + t] of the table is row [t] of sequence [i], whose
    sampling starts after the draws of the [i] sequences before it. *)
Lemma table_rows_nth (cfg : config) :
  forall (n a : nat) (s : source) (i t : nat),
    (i < n)%nat -> (t < Z.to_nat (sequence_length cfg))%nat ->
    nth_error (table_rows cfg (map Z.of_nat (List.seq a n)) s)
      (i * Z.to_nat (sequence_length cfg) + t)
    = nth_error
        (sequence_rows cfg (Z.of_nat (a + i))
           (advance (i * draws_per_sequence cfg) s)) t.
Proof.
  induction n as [| n IH]; intros a s i t Hi Ht; [lia|].
  cbn [List.seq map table_rows].
  destruct i as [| i].
  - cbn [Nat.mul Nat.add]. rewrite Nat.add_0_r.
    rewrite nth_error_app1 by (rewrite sequence_rows_length; exact Ht).
    reflexivity.
  - rewrite nth_error_app2 by (rewrite sequence_rows_length; lia).
    rewrite sequence_rows_length.
    replace (S i * Z.to_nat (sequence_length cfg) + t
             - Z.to_nat (sequence_length cfg))%nat
      with (i * Z.to_nat (sequence_length cfg) + t)%nat by lia.
    rewrite IH by lia.
    rewrite advance_advance.
    replace (S a + i)%nat with (a + S i)%nat by lia.
    reflexivity.
Qed.

(** Two consecutive rows of one sequence. *)
Lemma steps_rows_adjacent (cfg : config) (seq : Z) (fuel_flow afr air_flow : R) :
  forall (t n a : nat) (ct it ir : R) (s : source),
    (S t < n)%nat ->
    exists r r' : Row.t,
      nth_error (steps_rows cfg seq fuel_flow afr air_flow
                   (map Z.of_nat (List.seq a n)) ct it ir s) t = Some r
      /\ nth_error (steps_rows cfg seq fuel_flow afr air_flow
                      (map Z.of_nat (List.seq a n)) ct it ir s) (S t) = Some r'
      /\ Row.sequence r = seq /\ Row.timestep r = Z.of_nat (a + t)
      /\ Row.sequence r' = seq /\ Row.timestep r' = Z.of_nat (a + S t)
      /\ Row.current_temp r' = Row.next_temp r
      /\ Row.inflow_temp r'
         = walk_temp cfg (Row.inflow_temp r) (s (draws_per_step * t + 2)%nat)
      /\ Row.inflow_rate r'
         = walk_rate cfg (Row.inflow_rate r) (s (draws_per_step * t + 3)%nat).
Proof.
  induction t as [| t IH]; intros n a ct it ir s Hn.
  - destruct n as [| [| n]]; try lia.
    cbn [List.seq map steps_rows nth_error].
    eexists. eexists. split; [reflexivity|]. split; [reflexivity|].
    cbn. rewrite Nat.add_0_r.
    repeat split; try reflexivity. f_equal. lia.
  - destruct n as [| n]; [lia|].
    cbn [List.seq map steps_rows nth_error].
    destruct (IH n (S a) (temperature_of_draw fuel_flow air_flow ct it ir 1 (s 0%nat))
                (walk_temp cfg it (s 2%nat)) (walk_rate cfg ir (s 3%nat))
                (advance draws_per_step s) ltac:(lia))
      as (r & r' & H1 & H2 & H3 & H4 & H5 & H6 & H7 & H8 & H9).
    exists r, r'.
    cbn [step_row Row.next_temp].
    split; [exact H1|]. split; [exact H2|].
    split; [exact H3|].
    split; [rewrite H4; f_equal; lia|].
    split; [exact H5|].
    split; [rewrite H6; f_equal; lia|].
    split; [exact H7|].
    unfold advance, draws_per_step in H8, H9.
    split; [rewrite H8 | rewrite H9]; f_equal; f_equal;
      unfold draws_per_step; lia.
Qed.

(** ** C7 *)

(** C7. In sequence i, for every timestep t with t + 1 < L, the row of
    timestep t + 1 directly follows the row of timestep t in the table; its
    current_temp is the next_temp of the row of timestep t; and its
    inflow_temp and inflow_rate are the clamped perturbations of those of
    the row of timestep t by two draws of the random source whose positions
    depend on i, t and L alone, so on nothing of the temperature state. *)
Theorem sequence_chaining :
  forall (cfg : config) (s : source) (i t : nat),
    let N := Z.to_nat (num_sequences cfg) in
    let L := Z.to_nat (sequence_length cfg) in
    let k := (i * draws_per_sequence cfg + 5 + draws_per_step * t + 2)%nat in
    (i < N)%nat -> (t + 1 < L)%nat ->
    exists r r' : Row.t,
      nth_error (table cfg s) (i * L + t) = Some r
      /\ nth_error (table cfg s) (i * L + (t + 1)) = Some r'
      /\ Row.sequence r = Z.of_nat i /\ Row.timestep r = Z.of_nat t
      /\ Row.sequence r' = Z.of_nat i /\ Row.timestep r' = Z.of_nat (t + 1)
      /\ Row.current_temp r' = Row.next_temp r
      /\ Row.inflow_temp r'
         = np_clip (Row.inflow_temp r + (s k - 5 / 10) * 10)
             (fst (Ranges.inflow_temp (ranges cfg)))
             (snd (Ranges.inflow_temp (ranges cfg)))
      /\ Row.inflow_rate r'
         = np_clip (Row.inflow_rate r + (s (k + 1)%nat - 5 / 10) * 20)
             (fst (Ranges.inflow_rate (ranges cfg)))
             (snd (Ranges.inflow_rate (ranges cfg))).
Proof.
  intros cfg s i t N L k Hi Ht.
  rewrite table_eq. unfold range.
  rewrite !table_rows_nth by (fold N L; lia).
  unfold sequence_rows, range. fold L.
  match goal with
  | |- context [steps_rows cfg ?q ?f ?a ?af _ ?c ?x ?y ?z] =>
      destruct (steps_rows_adjacent cfg q f a af t L 0%nat c x y z ltac:(lia))
        as (r & r' & H1 & H2 & H3 & H4 & H5 & H6 & H7 & H8 & H9)
  end.
  exists r, r'.
  replace (t + 1)%nat with (S t) by lia.
  split; [exact H1|]. split; [exact H2|].
  split; [exact H3|]. split; [exact H4|].
  split; [exact H5|]. split; [exact H6|].
  split; [exact H7|].
  unfold walk_temp in H8. unfold walk_rate in H9.
  unfold advance in H8, H9.
  split; [rewrite H8 | rewrite H9]; do 4 f_equal; apply (f_equal s);
    unfold k; lia.
Qed.

Lemma sequence_chaining_witness :
  let cfg := sized_config 3 4 in
  let s := const_source (1 / 2) in
  exists r r' : Row.t,
    nth_error (table cfg s) (1 * 4 + 2) = Some r
    /\ nth_error (table cfg s) (1 * 4 + (2 + 1)) = Some r'
    /\ Row.sequence r = 1%Z /\ Row.timestep r = 2%Z
    /\ Row.sequence r' = 1%Z /\ Row.timestep r' = 3%Z
    /\ Row.current_temp r' = Row.next_temp r
    /\ Row.inflow_temp r'
       = np_clip (Row.inflow_temp r + (s 36%nat - 5 / 10) * 10) 100 200
    /\ Row.inflow_rate r'
       = np_clip (Row.inflow_rate r + (s 37%nat - 5 / 10) * 20) 50 200.
Proof.
  intros cfg s.
  apply (sequence_chaining cfg s 1 2); cbn; lia.
Defined.

(** ** C9 *)

(** C9, as the code has it.  The module validates nothing: generation
    completes under every configuration.  A non-positive num_sequences or
    sequence_length gives an empty table, and positive ones give
    num_sequences * sequence_length rows whatever the bounds of the sampling
    ranges are. *)
Theorem generation_unvalidated :
  forall (cfg : config) (s : source),
    ((num_sequences cfg <= 0)%Z \/ (sequence_length cfg <= 0)%Z ->
     table cfg s = [])
    /\ ((0 < num_sequences cfg)%Z -> (0 < sequence_length cfg)%Z ->
        Z.of_nat (length (table cfg s))
        = (num_sequences cfg * sequence_length cfg)%Z
        /\ table cfg s <> []).
Proof.
  intros cfg s. split.
  - intros H. apply length_zero_iff_nil. rewrite table_length.
    destruct H as [H | H].
    + replace (Z.to_nat (num_sequences cfg)) with 0%nat by lia. reflexivity.
    + replace (Z.to_nat (sequence_length cfg)) with 0%nat by lia. lia.
  - intros HN HL.
    assert (E : Z.of_nat (length (table cfg s))
                = (num_sequences cfg * sequence_length cfg)%Z)
      by (rewrite table_length; lia).
    split; [exact E|].
    intros Hnil. rewrite Hnil in E. cbn in E. nia.
Qed.

Lemma generation_unvalidated_witness :
  ((0 <= 0)%Z \/ (30 <= 0)%Z)
  /\ table (sized_config 0 30) (const_source (1 / 2)) = [].
Proof.
  split; [left; lia|].
  apply (proj1 (generation_unvalidated (sized_config 0 30) (const_source (1 / 2)))).
  left. cbn. lia.
Defined.

(** C9 fails as stated: under a configuration whose fuel-flow range is
    (20, 1), lower bound above upper bound, the run does not stop before
    generating; it emits a row, with a fuel flow sampled from that range. *)
Lemma invalid_range_generates :
  fst (Ranges.fuel_flow (ranges inverted_config))
    >= snd (Ranges.fuel_flow (ranges inverted_config))
  /\ exists r : Row.t,
       table inverted_config (const_source (1 / 2)) = [r]
       /\ Row.sequence r = 0%Z /\ Row.timestep r = 0%Z
       /\ Row.fuel_flow r = 21 / 2.
Proof.
  split; [cbn; lra|].
  rewrite table_eq. cbn [inverted_config num_sequences range Z.to_nat Pos.to_nat
                         Pos.iter_op List.seq map table_rows].
  unfold sequence_rows.
  cbn [inverted_config sequence_length range Z.to_nat Pos.to_nat Pos.iter_op
       List.seq map steps_rows app].
  eexists. split; [reflexivity|].
  cbn [step_row Row.sequence Row.timestep Row.fuel_flow Z.of_nat].
  split; [reflexivity|]. split; [reflexivity|].
  unfold uniform_of, const_source, inverted_config.
  cbn [ranges Ranges.fuel_flow fst snd]. lra.
Qed.

(** * Further properties of the update functions *)

Lemma py_max_nonexpansive (a x y : R) :
  Rabs (py_max a x - py_max a y) <= Rabs (x - y).
Proof.
  unfold py_max. destruct (Rlt_dec a x), (Rlt_dec a y);
    unfold Rabs; repeat destruct Rcase_abs; lra.
Qed.

Lemma noise_magnitude (u noise_level : R) :
  0 <= noise_level -> 0 <= u < 1 ->
  Rabs ((u - 5 / 10) * 2 * noise_level) <= noise_level.
Proof.
  intros Hn Hu. unfold Rabs. destruct Rcase_abs; nra.
Qed.

(** The noise moves either result by at most [noise_level]: the result with
    noise differs from the noise-free one by no more than that. *)
Theorem noise_effect_bounded :
  forall (fuel_flow air_flow current_temp inflow_temp inflow_rate air_fuel_ratio
          noise_level : R) (s s0 : source),
    0 <= noise_level -> valid_source s ->
    Rabs (fst (calculate_temperature fuel_flow air_flow current_temp inflow_temp
                 inflow_rate noise_level s)
          - fst (calculate_temperature fuel_flow air_flow current_temp inflow_temp
                   inflow_rate 0 s0)) <= noise_level
    /\ Rabs (fst (calculate_excess_o2 air_fuel_ratio fuel_flow current_temp
                    noise_level s)
             - fst (calculate_excess_o2 air_fuel_ratio fuel_flow current_temp 0 s0))
       <= noise_level.
Proof.
  intros ff af ct it ir afr nl s s0 Hn Hs.
  pose proof (noise_magnitude (s 0%nat) nl Hn (Hs 0%nat)) as Hnoise.
  cbn [calculate_temperature calculate_excess_o2 bind np_random_rand ret fst].
  rewrite !temperature_of_draw_eq, !excess_o2_of_draw_eq.
  split.
  - eapply Rle_trans; [apply py_max_nonexpansive|].
    match goal with |- Rabs ?e <= _ =>
      replace e with ((s 0%nat - 5 / 10) * 2 * nl) by lra end.
    exact Hnoise.
  - eapply Rle_trans; [apply py_max_nonexpansive|].
    match goal with |- Rabs ?e <= _ =>
      replace e with ((s 0%nat - 5 / 10) * 2 * nl) by lra end.
    exact Hnoise.
Qed.

Lemma noise_effect_bounded_witness :
  0 <= 1 /\ valid_source (const_source (1 / 4))
  /\ Rabs (fst (calculate_temperature 10 147 200 150 100 1 (const_source (1 / 4)))
           - fst (calculate_temperature 10 147 200 150 100 0 (const_source 0)))
     <= 1.
Proof.
  assert (H : valid_source (const_source (1 / 4)))
    by (apply const_source_valid; lra).
  split; [lra|]. split; [exact H|].
  apply (proj1 (noise_effect_bounded 10 147 200 150 100 12 1
                  (const_source (1 / 4)) (const_source 0) ltac:(lra) H)).
Defined.

(** For the same draw, a hotter furnace never lowers the excess-O2 reading. *)
Theorem excess_o2_monotone_in_temperature :
  forall (air_fuel_ratio fuel_flow ct1 ct2 noise_level : R) (s : source),
    ct1 <= ct2 ->
    fst (calculate_excess_o2 air_fuel_ratio fuel_flow ct1 noise_level s)
    <= fst (calculate_excess_o2 air_fuel_ratio fuel_flow ct2 noise_level s).
Proof.
  intros afr ff ct1 ct2 nl s Hc.
  cbn [calculate_excess_o2 bind np_random_rand ret fst].
  rewrite !excess_o2_of_draw_eq.
  set (m := py_max _ (1 / 1000000)).
  assert (Hm : 0 < / m) by (apply Rinv_0_lt_compat, py_max_pos_r; lra).
  apply py_max_mono.
  assert (py_max 0 (1 - 5 / 10000 * 10 * (1800 - ct1) / m)
          <= py_max 0 (1 - 5 / 10000 * 10 * (1800 - ct2) / m)).
  { apply py_max_mono. unfold Rdiv. nra. }
  lra.
Qed.

Lemma excess_o2_monotone_in_temperature_witness :
  300 <= 400
  /\ fst (calculate_excess_o2 12 10 300 (2 / 10) (const_source (1 / 2)))
     <= fst (calculate_excess_o2 12 10 400 (2 / 10) (const_source (1 / 2))).
Proof.
  split; [lra | apply excess_o2_monotone_in_temperature; lra].
Defined.

(** For the same draw, the next temperature grows with the current
    temperature and with the inflow temperature, for a non-negative inflow
    rate of at most 10^6. *)
Theorem temperature_monotone :
  forall (fuel_flow air_flow ct1 ct2 it1 it2 inflow_rate noise_level : R)
         (s : source),
    0 <= inflow_rate <= 1000000 -> ct1 <= ct2 -> it1 <= it2 ->
    fst (calculate_temperature fuel_flow air_flow ct1 it1 inflow_rate noise_level s)
    <= fst (calculate_temperature fuel_flow air_flow ct2 it2 inflow_rate
              noise_level s).
Proof.
  intros ff af ct1 ct2 it1 it2 ir nl s Hir Hc Hi.
  cbn [calculate_temperature bind np_random_rand ret fst].
  rewrite !temperature_of_draw_eq.
  apply py_max_mono.
  set (e := exp _).
  assert (H1 : ir * it1 <= ir * it2) by nra.
  assert (H2 : ir * ct1 <= ir * ct2) by nra.
  assert (H3 : ir * (ct2 - ct1) <= 1000000 * (ct2 - ct1)) by nra.
  lra.
Qed.

Lemma temperature_monotone_witness :
  0 <= 100 <= 1000000 /\ 200 <= 300 /\ 120 <= 150
  /\ fst (calculate_temperature 10 147 200 120 100 1 (const_source (1 / 2)))
     <= fst (calculate_temperature 10 147 300 150 100 1 (const_source (1 / 2))).
Proof.
  split; [lra|]. split; [lra|]. split; [lra|].
  apply temperature_monotone; lra.
Defined.

(** Without noise the reading is exactly 0 whenever the combustion heat rate
    does not exceed the flame-to-surface transfer rate (itself at least the
    1e-6 floor of the divisor); in particular with no fuel at all. *)
Theorem excess_o2_zero_when_transfer_dominates :
  forall (air_fuel_ratio fuel_flow current_temp : R) (s : source),
    1 / 1000000 <= 5 / 10000 * 10 * (1800 - current_temp) ->
    fuel_flow / 3600 * 39000
      * exp (- (air_fuel_ratio - 147 / 10) ^ 2 / (2 * 2 ^ 2))
    <= 5 / 10000 * 10 * (1800 - current_temp) ->
    fst (calculate_excess_o2 air_fuel_ratio fuel_flow current_temp 0 s) = 0.
Proof.
  intros afr ff ct s Ht Hq.
  cbn [calculate_excess_o2 bind np_random_rand ret fst].
  rewrite excess_o2_of_draw_eq.
  set (q := ff / 3600 * 39000 * exp _) in *.
  set (tr := 5 / 10000 * 10 * (1800 - ct)) in *.
  assert (Hm : 0 < py_max q (1 / 1000000)) by (apply py_max_pos_r; lra).
  assert (Hle : py_max q (1 / 1000000) <= tr) by (apply py_max_lub; lra).
  set (m := py_max q (1 / 1000000)) in *.
  assert (Hdiv : 1 <= tr / m).
  { apply (Rmult_le_reg_r m); [exact Hm|].
    unfold Rdiv. rewrite Rmult_assoc, Rinv_l by lra. lra. }
  rewrite (py_max_left 0 (1 - tr / m)) by lra.
  rewrite py_max_left by lra. reflexivity.
Qed.

Lemma excess_o2_zero_when_transfer_dominates_witness :
  1 / 1000000 <= 5 / 10000 * 10 * (1800 - 300)
  /\ 0 / 3600 * 39000 * exp (- (12 - 147 / 10) ^ 2 / (2 * 2 ^ 2))
     <= 5 / 10000 * 10 * (1800 - 300)
  /\ fst (calculate_excess_o2 12 0 300 0 (const_source (1 / 2))) = 0.
Proof.
  assert (H1 : 1 / 1000000 <= 5 / 10000 * 10 * (1800 - 300)) by lra.
  assert (H2 : 0 / 3600 * 39000 * exp (- (12 - 147 / 10) ^ 2 / (2 * 2 ^ 2))
               <= 5 / 10000 * 10 * (1800 - 300)) by lra.
  split; [exact H1|]. split; [exact H2|].
  exact (excess_o2_zero_when_transfer_dominates 12 0 300 (const_source (1 / 2)) H1 H2).
Defined.

(** * Further properties of the generation loop *)

(** ** Use of the random source *)

(** A whole run draws 5 values per sequence and 4 per timestep: after it the
    generator stands [N * (5 + 4 * L)] draws further. *)
Theorem generate_consumes_draws :
  forall (cfg : config) (s : source) (n : nat),
    snd (generate cfg s) n
    = s (Z.to_nat (num_sequences cfg)
         * (5 + 4 * Z.to_nat (sequence_length cfg)) + n)%nat.
Proof.
  intros cfg s n. unfold generate.
  rewrite generate_sequences_rows. cbn [snd].
  rewrite range_length. reflexivity.
Qed.

(** The rows of a sequence are determined by the draws it consumes. *)
Lemma steps_rows_ext (cfg : config) (seq : Z) (fuel_flow afr air_flow : R) :
  forall (ts : list Z) (ct it ir : R) (s s' : source),
    (forall j, (j < draws_per_step * length ts)%nat -> s j = s' j) ->
    steps_rows cfg seq fuel_flow afr air_flow ts ct it ir s
    = steps_rows cfg seq fuel_flow afr air_flow ts ct it ir s'.
Proof.
  induction ts as [| t ts IH]; intros ct it ir s s' H; [reflexivity|].
  cbn [steps_rows length] in *. unfold draws_per_step in *.
  unfold step_row. cbn [Row.next_temp].
  rewrite <- !H by lia.
  f_equal. apply IH. intros j Hj. unfold advance. apply H. lia.
Qed.

Lemma sequence_rows_ext (cfg : config) (seq : Z) (s s' : source) :
  (forall j, (j < draws_per_sequence cfg)%nat -> s j = s' j) ->
  sequence_rows cfg seq s = sequence_rows cfg seq s'.
Proof.
  intros H. unfold sequence_rows, draws_per_sequence in *.
  rewrite <- !H by lia.
  apply steps_rows_ext. intros j Hj. rewrite range_length in Hj.
  unfold advance. apply H. lia.
Qed.

(** No state is shared between sequences: the rows of sequence [i] depend on
    the random source only through the [5 + 4 * L] draws of that sequence. *)
Theorem sequences_independent :
  forall (cfg : config) (s s' : source) (i t : nat),
    let L := Z.to_nat (sequence_length cfg) in
    (i < Z.to_nat (num_sequences cfg))%nat -> (t < L)%nat ->
    (forall j, (j < 5 + 4 * L)%nat ->
               s (i * (5 + 4 * L) + j)%nat = s' (i * (5 + 4 * L) + j)%nat) ->
    nth_error (table cfg s) (i * L + t) = nth_error (table cfg s') (i * L + t).
Proof.
  intros cfg s s' i t L Hi Ht H.
  rewrite !table_eq. unfold range.
  rewrite !table_rows_nth by assumption.
  f_equal. apply sequence_rows_ext. intros j Hj. unfold advance. apply H.
  exact Hj.
Qed.

Lemma sequences_independent_witness :
  let cfg := sized_config 3 4 in
  let s := const_source (1 / 2) in
  let s' := fun n => if (n <? 21)%nat then 1 / 4 else 1 / 2 in
  nth_error (table cfg s) (1 * 4 + 2) = nth_error (table cfg s') (1 * 4 + 2).
Proof.
  intros cfg s s'.
  apply (sequences_independent cfg s s' 1 2); cbn; try lia.
  intros j _. unfold s, s', const_source.
  replace (21 + j <? 21)%nat with false; [reflexivity|].
  symmetry. apply Nat.ltb_ge. lia.
Defined.

(** ** Static parameters and initial state *)

Lemma steps_rows_static (cfg : config) (seq : Z) (fuel_flow afr air_flow : R) :
  forall (ts : list Z) (ct it ir : R) (s : source) (r : Row.t),
    In r (steps_rows cfg seq fuel_flow afr air_flow ts ct it ir s) ->
    Row.fuel_flow r = fuel_flow /\ Row.air_fuel_ratio r = afr.
Proof.
  induction ts as [| t ts IH]; intros ct it ir s r; cbn; [tauto|].
  intros [<- | Hin]; [split; reflexivity | eauto].
Qed.

(** Every row of sequence [i] carries the fuel flow and the air-fuel ratio
    sampled from the first two draws of that sequence, so both are constant
    along the sequence; and its first row carries the initial state sampled
    from the next three draws, whatever the previous sequence ended with. *)
Theorem sequence_parameters_sampled :
  forall (cfg : config) (s : source) (i t : nat),
    let L := Z.to_nat (sequence_length cfg) in
    let k := (i * (5 + 4 * L))%nat in
    let sampled := fun (rg : R * R) (u : R) => fst rg + (snd rg - fst rg) * u in
    (i < Z.to_nat (num_sequences cfg))%nat -> (t < L)%nat ->
    exists r : Row.t,
      nth_error (table cfg s) (i * L + t) = Some r
      /\ Row.sequence r = Z.of_nat i
      /\ Row.fuel_flow r = sampled (Ranges.fuel_flow (ranges cfg)) (s k)
      /\ Row.air_fuel_ratio r
         = sampled (Ranges.air_fuel_ratio (ranges cfg)) (s (k + 1)%nat)
      /\ (t = 0%nat ->
          Row.current_temp r
          = sampled (Ranges.current_temp (ranges cfg)) (s (k + 2)%nat)
          /\ Row.inflow_temp r
             = sampled (Ranges.inflow_temp (ranges cfg)) (s (k + 3)%nat)
          /\ Row.inflow_rate r
             = sampled (Ranges.inflow_rate (ranges cfg)) (s (k + 4)%nat)).
Proof.
  intros cfg s i t L k sampled Hi Ht.
  rewrite table_eq. unfold range at 1.
  rewrite table_rows_nth by assumption.
  cbn [Nat.add].
  destruct (nth_error (sequence_rows cfg (Z.of_nat i)
                         (advance (i * draws_per_sequence cfg) s)) t)
    as [r |] eqn:Hr.
  2:{ apply nth_error_None in Hr. rewrite sequence_rows_length in Hr.
      fold L in Hr. lia. }
  exists r. split; [reflexivity|].
  unfold sequence_rows in Hr.
  assert (Hk : forall j, advance (i * draws_per_sequence cfg) s j = s (k + j)%nat)
    by reflexivity.
  rewrite !Hk in Hr. rewrite Nat.add_0_r in Hr.
  pose proof (nth_error_In _ _ Hr) as Hin.
  pose proof (steps_rows_sequence _ _ _ _ _ _ _ _ _ _ _ Hin) as Hseq.
  pose proof (steps_rows_static _ _ _ _ _ _ _ _ _ _ _ Hin) as [Hff Hafr].
  split; [exact Hseq|]. split; [exact Hff|]. split; [exact Hafr|].
  intros ->. unfold range in Hr. fold L in Hr.
  destruct L as [| L']; [lia|].
  cbn [List.seq map steps_rows nth_error] in Hr.
  injection Hr as <-. cbn. repeat split.
Qed.

Lemma sequence_parameters_sampled_witness :
  let cfg := sized_config 3 4 in
  let s := const_source (1 / 2) in
  exists r : Row.t,
    nth_error (table cfg s) (1 * 4 + 2) = Some r
    /\ Row.sequence r = 1%Z /\ Row.fuel_flow r = 1 + (20 - 1) * (1 / 2).
Proof.
  intros cfg s.
  destruct (sequence_parameters_sampled cfg s 1 2) as (r & H0 & H1 & H2 & _).
  - cbn. lia.
  - cbn. lia.
  - exists r. split; [exact H0|]. split; [exact H1 | exact H2].
Defined.

(** ** Rows under the ranges of the source *)

(** What one timestep establishes from any state within the sampled ranges
    holds of every row of a table generated with the ranges of the source. *)
Lemma sized_rows_invariant (N L : Z) (Q : Row.t -> Prop) :
  (forall (seq t : Z) (ff afr ct it ir : R) (s : source),
      valid_source s ->
      1 <= ff <= 20 -> 6 / 10 <= afr <= 25 -> 25 <= ct ->
      100 <= it <= 200 -> 50 <= ir <= 200 ->
      Q (step_row seq t ff afr (ff * afr) ct it ir s)) ->
  forall s : source,
    valid_source s ->
    forall r : Row.t, In r (table (sized_config N L) s) -> Q r.
Proof.
  intros HQ s Hs r. rewrite table_eq. revert s Hs r.
  apply table_rows_invariant. intros seq s Hs r.
  unfold sequence_rows, range.
  set (ff := uniform_of _ (s 0%nat)). set (afr := uniform_of _ (s 1%nat)).
  assert (Hff : 1 <= ff <= 20) by (apply uniform_of_bounds; [lra | apply Hs]).
  assert (Hafr : 6 / 10 <= afr <= 25) by (apply uniform_of_bounds; [lra | apply Hs]).
  apply (steps_rows_invariant _ _ _ _ _
           (fun _ ct it ir => 25 <= ct /\ 100 <= it <= 200 /\ 50 <= ir <= 200) Q).
  - intros t ct it ir s' Hs' (Hct & Hit & Hir).
    split; [now apply HQ|].
    split; [apply py_max_l|].
    split; [apply (np_clip_bounds _ 100 200) | apply (np_clip_bounds _ 50 200)]; lra.
  - now apply advance_valid.
  - split; [apply (uniform_of_bounds 25 500); [lra | apply Hs]|].
    split; [apply (uniform_of_bounds 100 200) | apply (uniform_of_bounds 50 200)];
      try lra; apply Hs.
Qed.

(** One step lowers the temperature by little more than the noise. *)
Lemma temperature_step_lower (fuel_flow air_flow ct it ir u : R) :
  0 <= fuel_flow -> 25 <= ct -> 100 <= it <= 200 -> 50 <= ir <= 200 ->
  0 <= u < 1 ->
  ct - 1 - ct / 1000000
  <= temperature_of_draw fuel_flow air_flow ct it ir 1 u.
Proof.
  intros Hf Hc Hit Hir Hu. rewrite temperature_of_draw_eq.
  pose proof (gaussian_pos (air_flow / py_max fuel_flow (1 / 1000) - 147 / 10)) as H0.
  set (e := exp _) in *.
  assert (Hfe : 0 <= fuel_flow * e) by nra.
  assert (Hmix : ir * (ct - it) <= 200 * ct) by nra.
  eapply Rle_trans; [|apply py_max_r]. lra.
Qed.

(** In every row generated with the ranges of the source, the recorded
    next_temp and next_excess_o2 are the two update functions applied to the
    inputs recorded in that same row, with air_flow = fuel_flow *
    air_fuel_ratio and the default noise levels 1.0 and 0.2, for some draws
    of the source; and next_temp lies within
    [current_temp - 1 - current_temp / 10^6, current_temp + 1.1]. *)
Theorem rows_labelled_by_update :
  forall (N L : Z) (s : source),
    valid_source s ->
    forall r : Row.t,
      In r (table (sized_config N L) s) ->
      (exists u1 u2 : R,
          0 <= u1 < 1 /\ 0 <= u2 < 1
          /\ Row.next_temp r
             = temperature_of_draw (Row.fuel_flow r)
                 (Row.fuel_flow r * Row.air_fuel_ratio r)
                 (Row.current_temp r) (Row.inflow_temp r) (Row.inflow_rate r) 1 u1
          /\ Row.next_excess_o2 r
             = excess_o2_of_draw (Row.air_fuel_ratio r) (Row.fuel_flow r)
                 (Row.current_temp r) (2 / 10) u2)
      /\ Row.current_temp r - 1 - Row.current_temp r / 1000000
         <= Row.next_temp r <= Row.current_temp r + 11 / 10.
Proof.
  intros N L s Hs.
  apply sized_rows_invariant; [|exact Hs].
  intros seq t ff afr ct it ir s' Hs' Hff Hafr Hct Hit Hir.
  cbn [step_row Row.fuel_flow Row.air_fuel_ratio Row.current_temp
       Row.inflow_temp Row.inflow_rate Row.next_temp Row.next_excess_o2].
  split.
  - exists (s' 0%nat), (s' 1%nat).
    split; [apply Hs'|]. split; [apply Hs'|]. split; reflexivity.
  - split.
    + apply temperature_step_lower; try lra. apply Hs'.
    + apply temperature_step_upper; try lra. apply Hs'.
Qed.

Lemma rows_labelled_by_update_witness :
  valid_source (const_source (1 / 2))
  /\ forall r : Row.t,
       In r (table (sized_config 3 4) (const_source (1 / 2))) ->
       Row.current_temp r - 1 - Row.current_temp r / 1000000
       <= Row.next_temp r <= Row.current_temp r + 11 / 10.
Proof.
  assert (H : valid_source (const_source (1 / 2)))
    by (apply const_source_valid; lra).
  split; [exact H|].
  intros r Hr.
  exact (proj2 (rows_labelled_by_update 3 4 (const_source (1 / 2)) H r Hr)).
Defined.

(** ** The inflow random walk *)

(** Consecutive rows of sequence [i], as positions of the table. *)
Lemma table_adjacent_rows (cfg : config) (s : source) (i t : nat) :
  (i < Z.to_nat (num_sequences cfg))%nat ->
  (S t < Z.to_nat (sequence_length cfg))%nat ->
  exists (r r' : Row.t) (u_temp u_rate : R),
    nth_error (table cfg s) (i * Z.to_nat (sequence_length cfg) + t) = Some r
    /\ nth_error (table cfg s) (i * Z.to_nat (sequence_length cfg) + S t)
       = Some r'
    /\ (valid_source s -> 0 <= u_temp < 1 /\ 0 <= u_rate < 1)
    /\ Row.inflow_temp r' = walk_temp cfg (Row.inflow_temp r) u_temp
    /\ Row.inflow_rate r' = walk_rate cfg (Row.inflow_rate r) u_rate.
Proof.
  intros Hi Ht. rewrite table_eq. unfold range.
  rewrite !table_rows_nth by lia.
  unfold sequence_rows, range.
  match goal with
  | |- context [steps_rows cfg ?q ?f ?a ?af _ ?c ?x ?y ?z] =>
      destruct (steps_rows_adjacent cfg q f a af t
                  (Z.to_nat (sequence_length cfg)) 0%nat c x y z Ht)
        as (r & r' & H1 & H2 & _ & _ & _ & _ & _ & H8 & H9)
  end.
  exists r, r'. eexists. eexists.
  split; [exact H1|]. split; [exact H2|].
  split; [|split; [exact H8 | exact H9]].
  intros Hs. split; apply Hs.
Qed.

Lemma np_clip_near (x d lo hi : R) :
  lo <= x <= hi -> Rabs (np_clip (x + d) lo hi - x) <= Rabs d.
Proof.
  intros H. unfold np_clip, np_minimum, np_maximum.
  destruct (Rle_dec (x + d) lo); destruct (Rle_dec _ hi);
    unfold Rabs; repeat destruct Rcase_abs; lra.
Qed.

Lemma np_clip_inverted (x lo hi : R) : hi < lo -> np_clip x lo hi = hi.
Proof.
  intros H. unfold np_clip, np_minimum, np_maximum.
  destruct (Rle_dec x lo); destruct (Rle_dec _ hi); lra.
Qed.

(** With the ranges of the source, from one row of a sequence to the next
    the inflow temperature moves by at most 5 and the inflow rate by at most
    10. *)
Theorem inflow_walk_step_bounded :
  forall (N L : Z) (s : source) (i t : nat),
    valid_source s ->
    (i < Z.to_nat N)%nat -> (t + 1 < Z.to_nat L)%nat ->
    exists r r' : Row.t,
      nth_error (table (sized_config N L) s) (i * Z.to_nat L + t) = Some r
      /\ nth_error (table (sized_config N L) s) (i * Z.to_nat L + (t + 1))
         = Some r'
      /\ Rabs (Row.inflow_temp r' - Row.inflow_temp r) <= 5
      /\ Rabs (Row.inflow_rate r' - Row.inflow_rate r) <= 10.
Proof.
  intros N L s i t Hs Hi Ht.
  destruct (table_adjacent_rows (sized_config N L) s i t)
    as (r & r' & u1 & u2 & H1 & H2 & Hu & H3 & H4); [exact Hi | cbn; lia |].
  cbn [sized_config sequence_length] in H1, H2.
  destruct (Hu Hs) as [Hu1 Hu2].
  exists r, r'. replace (t + 1)%nat with (S t) by lia.
  split; [exact H1|]. split; [exact H2|].
  assert (Hr : 100 <= Row.inflow_temp r <= 200 /\ 50 <= Row.inflow_rate r <= 200).
  { apply nth_error_In in H1. revert r H1 H2 H3 H4.
    intros r H1 _ _ _. revert r H1.
    apply sized_rows_invariant; [|exact Hs].
    intros. cbn. split; assumption. }
  destruct Hr as [Hit Hir].
  rewrite H3, H4. unfold walk_temp, walk_rate. cbn [sized_config ranges
    source_ranges Ranges.inflow_temp Ranges.inflow_rate fst snd].
  split.
  - eapply Rle_trans; [apply np_clip_near; exact Hit|].
    unfold Rabs. destruct Rcase_abs; lra.
  - eapply Rle_trans; [apply np_clip_near; exact Hir|].
    unfold Rabs. destruct Rcase_abs; lra.
Qed.

Lemma inflow_walk_step_bounded_witness :
  let s := const_source (1 / 2) in
  valid_source s
  /\ exists r r' : Row.t,
       nth_error (table (sized_config 3 4) s) (1 * 4 + 2) = Some r
       /\ nth_error (table (sized_config 3 4) s) (1 * 4 + (2 + 1)) = Some r'
       /\ Rabs (Row.inflow_temp r' - Row.inflow_temp r) <= 5
       /\ Rabs (Row.inflow_rate r' - Row.inflow_rate r) <= 10.
Proof.
  intros s.
  assert (H : valid_source s) by (apply const_source_valid; lra).
  split; [exact H|].
  apply (inflow_walk_step_bounded 3 4 s 1 2 H); cbn; lia.
Defined.

(** The loop accepts a range whose bounds are swapped: [np.clip] then returns
    its upper argument, so from the second row of every sequence on the
    inflow temperature (resp. inflow rate) is pinned to the second component
    of its configured pair. *)
Theorem inverted_inflow_range_pins :
  forall (cfg : config) (s : source) (i t : nat),
    (i < Z.to_nat (num_sequences cfg))%nat ->
    (t + 1 < Z.to_nat (sequence_length cfg))%nat ->
    exists r' : Row.t,
      nth_error (table cfg s) (i * Z.to_nat (sequence_length cfg) + (t + 1))
      = Some r'
      /\ (snd (Ranges.inflow_temp (ranges cfg))
            < fst (Ranges.inflow_temp (ranges cfg)) ->
          Row.inflow_temp r' = snd (Ranges.inflow_temp (ranges cfg)))
      /\ (snd (Ranges.inflow_rate (ranges cfg))
            < fst (Ranges.inflow_rate (ranges cfg)) ->
          Row.inflow_rate r' = snd (Ranges.inflow_rate (ranges cfg))).
Proof.
  intros cfg s i t Hi Ht.
  destruct (table_adjacent_rows cfg s i t)
    as (r & r' & u1 & u2 & H1 & H2 & _ & H3 & H4); [exact Hi | lia |].
  exists r'. replace (t + 1)%nat with (S t) by lia.
  split; [exact H2|].
  split; intros Hinv.
  - rewrite H3. unfold walk_temp. now apply np_clip_inverted.
  - rewrite H4. unfold walk_rate. now apply np_clip_inverted.
Qed.

Lemma inverted_inflow_range_pins_witness :
  exists r' : Row.t,
    nth_error (table swapped_inflow_config (const_source (1 / 2))) (1 * 3 + (0 + 1))
    = Some r'
    /\ Row.inflow_temp r' = 100.
Proof.
  destruct (inverted_inflow_range_pins swapped_inflow_config
              (const_source (1 / 2)) 1 0) as (r' & H1 & H2 & _).
  - cbn. lia.
  - cbn. lia.
  - exists r'. split; [exact H1|]. apply H2. cbn. lra.
Defined.

(** ** Growing the number of sequences *)

Lemma steps_rows_cfg (cfg cfg' : config) (seq : Z) (fuel_flow afr air_flow : R) :
  ranges cfg = ranges cfg' ->
  forall (ts : list Z) (ct it ir : R) (s : source),
    steps_rows cfg seq fuel_flow afr air_flow ts ct it ir s
    = steps_rows cfg' seq fuel_flow afr air_flow ts ct it ir s.
Proof.
  intros E. induction ts as [| t ts IH]; intros ct it ir s; [reflexivity|].
  cbn [steps_rows]. unfold walk_temp, walk_rate. rewrite E. f_equal. apply IH.
Qed.

Lemma table_rows_cfg (cfg cfg' : config) :
  ranges cfg = ranges cfg' -> sequence_length cfg = sequence_length cfg' ->
  forall (seqs : list Z) (s : source),
    table_rows cfg seqs s = table_rows cfg' seqs s.
Proof.
  intros E EL. induction seqs as [| seq seqs IH]; intros s; [reflexivity|].
  cbn [table_rows]. unfold sequence_rows, draws_per_sequence.
  rewrite (steps_rows_cfg cfg cfg') by exact E.
  rewrite E, EL. f_equal. apply IH.
Qed.

Lemma table_rows_app (cfg : config) :
  forall (l1 l2 : list Z) (s : source),
    table_rows cfg (l1 ++ l2) s
    = table_rows cfg l1 s
        ++ table_rows cfg l2 (advance (length l1 * draws_per_sequence cfg) s).
Proof.
  induction l1 as [| a l1 IH]; intros l2 s; [reflexivity|].
  cbn [app table_rows length]. rewrite IH, <- app_assoc, advance_advance.
  reflexivity.
Qed.

Lemma range_succ (n : Z) : (0 <= n)%Z -> range (n + 1) = range n ++ [n].
Proof.
  intros H. unfold range.
  replace (Z.to_nat (n + 1)) with (S (Z.to_nat n)) by lia.
  rewrite seq_S, map_app. cbn [map Nat.add]. now rewrite Z2Nat.id.
Qed.

(** Asking for one more sequence appends to the table and changes nothing
    before: the table for [num_sequences + 1] is the table for
    [num_sequences] followed by the rows of one more pass of the outer loop,
    run from the generator state the shorter run ends in. *)
Theorem one_more_sequence_appends :
  forall (cfg : config) (s : source),
    (0 <= num_sequences cfg)%Z ->
    let cfg' := {| num_sequences := num_sequences cfg + 1;
                   sequence_length := sequence_length cfg;
                   ranges := ranges cfg |} in
    table cfg' s
    = table cfg s
        ++ fst (generate_sequences cfg [num_sequences cfg] []
                  (snd (generate cfg s))).
Proof.
  intros cfg s HN cfg'.
  rewrite (table_eq cfg'), (table_eq cfg).
  cbn [cfg' num_sequences].
  rewrite range_succ by exact HN.
  rewrite (table_rows_cfg cfg' cfg) by reflexivity.
  rewrite table_rows_app.
  unfold generate. rewrite !generate_sequences_rows. cbn [fst snd app].
  reflexivity.
Qed.

Lemma one_more_sequence_appends_witness :
  let s := const_source (1 / 2) in
  table (sized_config (2 + 1) 4) s
  = table (sized_config 2 4) s
      ++ fst (generate_sequences (sized_config 2 4) [2%Z] []
                (snd (generate (sized_config 2 4) s))).
Proof.
  intros s.
  apply (one_more_sequence_appends (sized_config 2 4) s). cbn. lia.
Defined.

(** * The trainer *)

(** ** Train and validation split *)

Lemma n_val_quotient (n : Z) : (0 <= n)%Z -> n_val n = (n / 5)%Z.
Proof.
  intros Hn. unfold n_val, py_int.
  assert (H0 : 0 <= IZR n) by (apply IZR_le; exact Hn).
  destruct (Rle_dec 0 (2 / 10 * IZR n)) as [_ | Hneg]; [|lra].
  symmetry. apply Int_part_spec.
  pose proof (Z.mul_div_le n 5 ltac:(lia)) as Hlo.
  pose proof (Z.mul_succ_div_gt n 5 ltac:(lia)) as Hhi.
  apply IZR_le in Hlo. apply IZR_lt in Hhi.
  rewrite mult_IZR in Hlo, Hhi. rewrite succ_IZR in Hhi.
  lra.
Qed.

(** The validation part is a fifth of the dataset, rounded down; the
    training part is the rest, so the two parts cover the dataset and the
    training part exceeds four times the validation part by at most 4. *)
Theorem split_sizes :
  forall n_total : Z,
    (0 <= n_total)%Z ->
    n_val n_total = (n_total / 5)%Z
    /\ (n_train n_total + n_val n_total = n_total)%Z
    /\ (4 * n_val n_total <= n_train n_total <= 4 * n_val n_total + 4)%Z.
Proof.
  intros n Hn. unfold n_train. rewrite n_val_quotient by exact Hn.
  pose proof (Z.mul_div_le n 5 ltac:(lia)).
  pose proof (Z.mul_succ_div_gt n 5 ltac:(lia)).
  repeat split; lia.
Qed.

Lemma split_sizes_witness :
  (0 <= 10000)%Z
  /\ n_val 10000 = (10000 / 5)%Z
  /\ (n_train 10000 + n_val 10000 = 10000)%Z
  /\ (4 * n_val 10000 <= n_train 10000 <= 4 * n_val 10000 + 4)%Z.
Proof.
  split; [lia | apply split_sizes; lia].
Defined.



(** ** The network *)

Lemma zip_with_length {A B C : Type} (f : A -> B -> C) :
  forall (a : list A) (b : list B),
    length (zip_with f a b) = Nat.min (length a) (length b).
Proof.
  induction a as [| x a IH]; intros [| y b]; cbn; try reflexivity.
  now rewrite IH.
Qed.

Lemma zip_with_nth {A B C : Type} (f : A -> B -> C) (da : A) (db : B) (dc : C) :
  forall (a : list A) (b : list B) (i : nat),
    (i < length a)%nat -> (i < length b)%nat ->
    nth i (zip_with f a b) dc = f (nth i a da) (nth i b db).
Proof.
  induction a as [| x a IH]; intros [| y b] i Ha Hb; cbn in *; try lia.
  destruct i as [| i]; [reflexivity|]. apply IH; lia.
Qed.

Lemma map_nth_in {A B : Type} (f : A -> B) (d : A) (d' : B) :
  forall (l : list A) (i : nat),
    (i < length l)%nat -> nth i (map f l) d' = f (nth i l d).
Proof.
  induction l as [| x l IH]; intros i Hi; cbn in *; [lia|].
  destruct i as [| i]; [reflexivity|]. apply IH. lia.
Qed.

Lemma tanh_bounds (x : R) : -1 < tanh x < 1.
Proof.
  unfold tanh, sinh, cosh.
  pose proof (exp_pos x) as H1. pose proof (exp_pos (- x)) as H2.
  assert (Hc : 0 < (exp x + exp (- x)) / 2) by lra.
  split.
  - apply (Rmult_lt_reg_r ((exp x + exp (- x)) / 2)); [exact Hc|].
    unfold Rdiv at 2. rewrite Rmult_assoc, Rinv_l by lra. lra.
  - apply (Rmult_lt_reg_r ((exp x + exp (- x)) / 2)); [exact Hc|].
    unfold Rdiv at 1. rewrite Rmult_assoc, Rinv_l by lra. lra.
Qed.

(** One step of a cell built for [in_dim] inputs and [hid_dim] state
    components keeps the size of the state and moves each component to
    within 0.1 of its decayed value (1 - 0.1 * theta_i) * x_i, whatever the
    input and the weights of the linear layer are. *)
Theorem cell_step_near_decay :
  forall (c : LiquidCell.t) (x u : list R) (in_dim hid_dim : nat),
    LiquidCell.shaped c in_dim hid_dim ->
    length x = hid_dim -> length u = in_dim ->
    length (LiquidCell.forward c x u) = hid_dim
    /\ forall i : nat, (i < hid_dim)%nat ->
         Rabs (nth i (LiquidCell.forward c x u) 0
               - (1 - nth i (LiquidCell.theta c) 0 / 10) * nth i x 0) < 1 / 10.
Proof.
  intros c x u in_dim h (Ht & Hw & Hb & _) Hx _. unfold LiquidCell.forward.
  set (y := Linear.forward (LiquidCell.fc c) (x ++ u)).
  assert (Hy : length y = h).
  { unfold y, Linear.forward. rewrite zip_with_length, Hw, Hb. lia. }
  assert (Hd : length (zip_with Rplus
                         (zip_with Rmult (map Ropp (LiquidCell.theta c)) x)
                         (map tanh y)) = h).
  { rewrite !zip_with_length, !length_map, Ht, Hx, Hy. lia. }
  split.
  - rewrite zip_with_length, length_map, Hd, Hx. lia.
  - intros i Hi.
    rewrite (zip_with_nth Rplus 0 0 0) by (rewrite ?length_map; lia).
    rewrite (map_nth_in _ 0 0) by lia.
    rewrite (zip_with_nth Rplus 0 0 0)
      by (rewrite ?zip_with_length, ?length_map; lia).
    rewrite (zip_with_nth Rmult 0 0 0) by (rewrite ?length_map; lia).
    rewrite (map_nth_in Ropp 0 0) by lia.
    rewrite (map_nth_in tanh 0 0) by lia.
    pose proof (tanh_bounds (nth i y 0)) as Hb'.
    unfold Rabs. destruct Rcase_abs; lra.
Qed.

Lemma sample_cell_shaped : LiquidCell.shaped sample_cell 1 2.
Proof.
  split; [reflexivity|]. split; [reflexivity|]. split; [reflexivity|].
  repeat constructor.
Qed.

Lemma sample_net_shaped : LiquidNN.shaped sample_net 1 2 1.
Proof.
  split; [exact sample_cell_shaped|].
  split; [reflexivity|]. split; [reflexivity|]. repeat constructor.
Qed.

Lemma cell_step_near_decay_witness :
  LiquidCell.shaped sample_cell 1 2
  /\ length (LiquidCell.forward sample_cell [0; 0] [1]) = 2%nat
  /\ Rabs (nth 0 (LiquidCell.forward sample_cell [0; 0] [1]) 0
           - (1 - nth 0 (LiquidCell.theta sample_cell) 0 / 10) * nth 0 [0; 0] 0)
     < 1 / 10.
Proof.
  split; [exact sample_cell_shaped|].
  destruct (cell_step_near_decay sample_cell [0; 0] [1] 1 2
              sample_cell_shaped eq_refl eq_refl) as [H1 H2].
  split; [exact H1 | apply H2; lia].
Defined.

Lemma steps_outs (net : LiquidNN.t) :
  forall (u_seq : list (list R)) (x : list R) (outs : list (list R)),
    LiquidNN.steps net x u_seq outs = outs ++ LiquidNN.steps net x u_seq [].
Proof.
  induction u_seq as [| u us IH]; intros x outs; cbn [LiquidNN.steps].
  - now rewrite app_nil_r.
  - rewrite IH. rewrite (IH _ ([] ++ _)). now rewrite <- app_assoc.
Qed.

Lemma steps_length (net : LiquidNN.t) :
  forall (u_seq : list (list R)) (x : list R),
    length (LiquidNN.steps net x u_seq []) = length u_seq.
Proof.
  induction u_seq as [| u us IH]; intros x; cbn [LiquidNN.steps]; [reflexivity|].
  rewrite steps_outs, length_app, IH. reflexivity.
Qed.

Lemma steps_outputs (net : LiquidNN.t) :
  forall (u_seq : list (list R)) (x : list R) (o : list R),
    In o (LiquidNN.steps net x u_seq []) ->
    exists x' : list R, o = Linear.forward (LiquidNN.readout net) x'.
Proof.
  induction u_seq as [| u us IH]; intros x o; cbn [LiquidNN.steps]; [intros []|].
  rewrite steps_outs. cbn [app In]. intros [<- | Hin]; eauto.
Qed.

Lemma forward_nonempty (net : LiquidNN.t) (u_seq : list (list R)) :
  u_seq <> [] ->
  LiquidNN.forward net u_seq
  = Some (LiquidNN.steps net
            (repeat 0 (length (LiquidCell.theta (LiquidNN.cell net)))) u_seq []).
Proof.
  intros Hne. unfold LiquidNN.forward.
  pose proof (steps_length net u_seq
                (repeat 0 (length (LiquidCell.theta (LiquidNN.cell net))))) as Hl.
  destruct (LiquidNN.steps net _ u_seq []) as [| o outs]; [|reflexivity].
  destruct u_seq; [contradiction | discriminate Hl].
Qed.

(** For a network built for [in_dim] features and [out_dim] outputs, run on
    a sequence of such feature vectors: an empty sequence makes
    [torch.stack] fail, and a sequence of T >= 1 timesteps gives T outputs
    of [out_dim] entries each. *)
Theorem network_output_shape :
  forall (net : LiquidNN.t) (u_seq : list (list R)) (in_dim hid_dim out_dim : nat),
    LiquidNN.shaped net in_dim hid_dim out_dim ->
    Forall (fun u => length u = in_dim) u_seq ->
    (u_seq = [] -> LiquidNN.forward net u_seq = None)
    /\ (u_seq <> [] ->
        exists outs : list (list R),
          LiquidNN.forward net u_seq = Some outs
          /\ length outs = length u_seq
          /\ Forall (fun o => length o = out_dim) outs).
Proof.
  intros net u_seq in_dim h out (_ & Hw & Hb & _) _. split.
  - intros ->. reflexivity.
  - intros Hne. eexists. split; [now apply forward_nonempty|].
    split; [apply steps_length|].
    apply Forall_forall. intros o Ho.
    apply steps_outputs in Ho. destruct Ho as [x' ->].
    unfold Linear.forward. rewrite zip_with_length, Hw, Hb. lia.
Qed.

Lemma network_output_shape_witness :
  LiquidNN.shaped sample_net 1 2 1
  /\ Forall (fun u => length u = 1%nat) [[1]; [2]; [3]]
  /\ exists outs : list (list R),
       LiquidNN.forward sample_net [[1]; [2]; [3]] = Some outs
       /\ length outs = 3%nat
       /\ Forall (fun o => length o = 1%nat) outs.
Proof.
  assert (H : Forall (fun u => length u = 1%nat) [[1]; [2]; [3]])
    by (repeat constructor).
  split; [exact sample_net_shaped|]. split; [exact H|].
  apply (proj2 (network_output_shape sample_net [[1]; [2]; [3]] 1 2 1
                  sample_net_shaped H)).
  discriminate.
Defined.

Lemma steps_prefix (net : LiquidNN.t) :
  forall (u v : list (list R)) (x : list R),
    exists rest : list (list R),
      LiquidNN.steps net x (u ++ v) [] = LiquidNN.steps net x u [] ++ rest.
Proof.
  induction u as [| a u IH]; intros v x.
  - exists (LiquidNN.steps net x v []). reflexivity.
  - cbn [app LiquidNN.steps].
    destruct (IH v (LiquidCell.forward (LiquidNN.cell net) x a)) as [rest E].
    exists rest.
    rewrite (steps_outs net (u ++ v) _ [_]), (steps_outs net u _ [_]), E.
    now rewrite <- app_assoc.
Qed.

(** The network is causal: the outputs for the first timesteps do not depend
    on the inputs that follow them.  Run on a non-empty sequence extended by
    more timesteps it gives, on the first ones, the outputs of the run on
    the sequence alone. *)
Theorem network_causal :
  forall (net : LiquidNN.t) (u v : list (list R)) (in_dim hid_dim out_dim : nat),
    LiquidNN.shaped net in_dim hid_dim out_dim ->
    Forall (fun w => length w = in_dim) (u ++ v) ->
    u <> [] ->
    exists outs outs' : list (list R),
      LiquidNN.forward net (u ++ v) = Some outs
      /\ LiquidNN.forward net u = Some outs'
      /\ firstn (length u) outs = outs'.
Proof.
  intros net u v in_dim h out _ _ Hne.
  assert (Hne' : u ++ v <> []) by (destruct u; [contradiction | discriminate]).
  eexists. eexists.
  split; [now apply forward_nonempty|]. split; [now apply forward_nonempty|].
  destruct (steps_prefix net u v
              (repeat 0 (length (LiquidCell.theta (LiquidNN.cell net)))))
    as [rest ->].
  rewrite <- (steps_length net u
                (repeat 0 (length (LiquidCell.theta (LiquidNN.cell net))))) at 1.
  rewrite firstn_app, firstn_all, Nat.sub_diag. cbn [firstn].
  apply app_nil_r.
Qed.

Lemma network_causal_witness :
  LiquidNN.shaped sample_net 1 2 1
  /\ Forall (fun w => length w = 1%nat) ([[1]; [2]] ++ [[3]])
  /\ exists outs outs' : list (list R),
       LiquidNN.forward sample_net ([[1]; [2]] ++ [[3]]) = Some outs
       /\ LiquidNN.forward sample_net [[1]; [2]] = Some outs'
       /\ firstn 2 outs = outs'.
Proof.
  assert (H : Forall (fun w => length w = 1%nat) ([[1]; [2]] ++ [[3]]))
    by (repeat constructor).
  split; [exact sample_net_shaped|]. split; [exact H|].
  apply (network_causal sample_net [[1]; [2]] [[3]] 1 2 1 sample_net_shaped H).
  discriminate.
Defined.

(** ** Scaling of the columns *)

Lemma column_sum_affine (a b : R) (xs : list R) :
  column_sum (map (fun x => a * x + b) xs)
  = a * column_sum xs + INR (length xs) * b.
Proof.
  induction xs as [| x xs IH].
  - cbn. lra.
  - cbn [map column_sum fold_right length]. fold (column_sum xs).
    fold (column_sum (map (fun x => a * x + b) xs)).
    rewrite IH, S_INR. lra.
Qed.

Lemma column_sum_scaled (a : R) (f : R -> R) (xs : list R) :
  column_sum (map (fun x => a * f x) xs) = a * column_sum (map f xs).
Proof.
  induction xs as [| x xs IH]; cbn; [lra|].
  fold (column_sum (map (fun x => a * f x) xs)). fold (column_sum (map f xs)).
  rewrite IH. lra.
Qed.

Lemma column_sum_squares_nonneg (m : R) (xs : list R) :
  0 <= column_sum (map (fun x => (x - m) ^ 2) xs).
Proof.
  induction xs as [| x xs IH]; cbn [map column_sum fold_right]; [lra|].
  fold (column_sum (map (fun x => (x - m) ^ 2) xs)).
  pose proof (pow2_ge_0 (x - m)). lra.
Qed.

Lemma map_ext_R (f g : R -> R) (xs : list R) :
  (forall x, f x = g x) -> map f xs = map g xs.
Proof.
  intros H. induction xs as [| x xs IH]; cbn; [reflexivity|]. now rewrite H, IH.
Qed.

(** Scaling a column of at least two values whose deviation is not zero with
    its own mean and deviation gives a column of mean 0 and of sample
    standard deviation 1. *)
Theorem normalize_standardizes :
  forall xs : list R,
    (2 <= length xs)%nat -> column_std xs <> 0 ->
    column_mean (normalize xs xs) = 0
    /\ column_std (normalize xs xs) = 1.
Proof.
  intros xs Hn Hs.
  set (n := INR (length xs)).
  assert (Hn2 : 2 <= n) by (apply (le_INR 2); exact Hn).
  set (m := column_mean xs). set (sd := column_std xs).
  assert (Hmean : column_mean (normalize xs xs) = 0).
  { unfold column_mean, normalize. rewrite length_map. fold m sd n.
    rewrite (map_ext_R _ (fun x => / sd * x + (- m / sd)))
      by (intros x; unfold Rdiv; lra).
    rewrite column_sum_affine. fold n.
    assert (E : column_sum xs = m * n).
    { unfold m, column_mean. fold n. field. lra. }
    rewrite E. field. split; [exact Hs | lra]. }
  split; [exact Hmean|].
  unfold column_std at 1. rewrite Hmean.
  unfold normalize at 1 2. rewrite length_map, map_map. fold m sd n.
  rewrite (map_ext_R _ (fun x => / (sd * sd) * (x - m) ^ 2))
    by (intros x; field; exact Hs).
  rewrite column_sum_scaled.
  assert (Hv : column_sum (map (fun x => (x - m) ^ 2) xs) / (n - 1) = sd * sd).
  { unfold sd, column_std. fold m n. rewrite sqrt_sqrt; [reflexivity|].
    apply Rmult_le_pos; [apply column_sum_squares_nonneg|].
    left. apply Rinv_0_lt_compat. lra. }
  replace (/ (sd * sd) * column_sum (map (fun x => (x - m) ^ 2) xs) / (n - 1))
    with (/ (sd * sd) * (column_sum (map (fun x => (x - m) ^ 2) xs) / (n - 1)))
    by (unfold Rdiv; ring).
  rewrite Hv. rewrite Rinv_l by (apply Rmult_integral_contrapositive; split; exact Hs).
  apply sqrt_1.
Qed.

Lemma normalize_standardizes_witness :
  (2 <= length [1; 3])%nat /\ column_std [1; 3] <> 0
  /\ column_mean (normalize [1; 3] [1; 3]) = 0
  /\ column_std (normalize [1; 3] [1; 3]) = 1.
Proof.
  assert (H1 : (2 <= length [1; 3])%nat) by (cbn; lia).
  assert (H2 : column_std [1; 3] <> 0).
  { unfold column_std, column_mean.
    cbn [map column_sum fold_right length INR].
    match goal with |- sqrt ?e <> 0 => replace e with 2 by field end.
    intros E. apply sqrt_eq_0 in E; lra. }
  split; [exact H1|]. split; [exact H2|].
  exact (normalize_standardizes [1; 3] H1 H2).
Defined.
